(** * ScatterChart (packages/lib/src/js/charts/scatter.js)

    A shallow embedding of the scatter chart's point-picking core: the
    nested point registry [points], the active-point setter, the two
    handlers given to the Delaunay component, [redraw] and
    [normalizeData].

    The class is stateful and its methods can throw, so methods are
    computations in a small monad that threads the chart object, collects
    the calls made on collaborators (tooltip, rugs, point handles, legend,
    brush) in a trace, and may end in a JavaScript exception.  A chart
    mutated before an exception stays mutated, as in JavaScript. *)

From Stdlib Require Import ZArith QArith Lia.
From stdpp Require Import base list strings.

Local Open Scope Z_scope.

(** ** Values *)

(** The data handed to a chart: records (objects with numeric fields) and
    arrays of values.  A flat sequence of records is an array of objects;
    grouped data is an array of arrays of objects. *)
#[warnings="-register-all"]
Inductive jsval :=
| JObj (fields : list (string * Z))
| JArr (elems : list jsval).

Definition is_obj (v : jsval) : bool :=
  match v with JObj _ => true | JArr _ => false end.

Definition is_arr (v : jsval) : bool :=
  match v with JObj _ => false | JArr _ => true end.

(** The two opacities the chart ever writes: [fillOpacity: 0.3] and
    [fillOpacity: 1]. *)
Definition dim : Q := (3 # 10)%Q.
Definition emphasized : Q := 1%Q.

(** Modelled from the spec: the point handle returned by
    [AbstractChart.generatePoint] (not in this file).  A handle owns its
    visual attributes; [update] with a partial style overwrites only the
    attributes that are given.  Attributes that were not given at creation
    are [None] (undefined). *)
Record Point := {
  pt_data : option jsval;
  color : option string;
  radius : option Z;
  fillOpacity : option Q;
  strokeWidth : option Z;
}.

Definition generatePoint (d : option jsval) (col : option string)
    (r : option Z) (fo : option Q) (sw : option Z) : Point :=
  {| pt_data := d; color := col; radius := r; fillOpacity := fo;
     strokeWidth := sw |}.

(** [point.update({ fillOpacity })] *)
Definition Point_update (fo : Q) (p : Point) : Point :=
  {| pt_data := pt_data p; color := color p; radius := radius p;
     fillOpacity := Some fo; strokeWidth := strokeWidth p |}.

(** Modelled from the spec: the constants [constants.orientation] and
    [constants.legendObject] of [misc/constants] (not in this file); the
    chart uses [horizontal], [vertical] and [circle]. *)
Variant orientation := horizontal | vertical.
Variant legendObject := circle | line | square.

(** Modelled from the spec: a rug ([components/rug], not in this file), as
    the arguments of [new Rug(...)] that tell one rug from another. *)
Record Rug := {
  rug_data : jsval;
  rug_orientation : orientation;
}.

(** [this._activePoint]: an object with two numeric fields. *)
Record ActivePoint := { i : Z; j : Z }.

(** The object the Delaunay component hands to [onPoint]: the record under
    the pointer with its position [index] in its series and, in nested
    mode, the series position [arrayIndex] (null or undefined is [None]). *)
Record hit := {
  arrayIndex : option Z;
  index : Z;
  hit_data : jsval;
}.

(** The closures returned by [onPointHandler()] and [onLeaveHandler()]
    close over [this] only, so each is represented by its name and run by
    [invoke] below. *)
Variant callback := OnPointHandler | OnLeaveHandler.

(** Modelled from the spec: the Delaunay component ([components/delaunay],
    not in this file), as the arguments of [new Delaunay(...)] that the
    chart decides; the accessors and scales are passed through unchanged. *)
Record Delaunay := {
  dl_points : jsval;
  nested : bool;
  onPoint : callback;
  onLeave : callback;
}.

(** Modelled from the spec: the optional tooltip collaborator (not in this
    file), an opaque handle with the methods [update] and [hide]. *)
Variant Tooltip := TooltipHandle.

Variant tooltip_arg :=
| LegendObjectArg (o : legendObject)      (* { legendObject: o } *)
| DataArg (pts : list hit).               (* { data: [point] } *)

(** ** The chart object *)

Record ScatterChart := {
  (* inherited from AbstractChart *)
  data : jsval;
  isArrayOfObjects : bool;
  colors : list string;
  tooltip : option Tooltip;
  brush : option string;
  (* declared by ScatterChart *)
  points : list (list Point);
  delaunay : option Delaunay;
  delaunayPoint : option Point;
  sizeAccessor : option (jsval -> option Z);
  xRug : option Rug;
  xRugParams : option bool;
  yRug : option Rug;
  yRugParams : option bool;
  _activePoint : ActivePoint;
}.

Definition with_data (v : jsval) (c : ScatterChart) : ScatterChart :=
  {| data := v; isArrayOfObjects := isArrayOfObjects c; colors := colors c;
     tooltip := tooltip c; brush := brush c; points := points c;
     delaunay := delaunay c; delaunayPoint := delaunayPoint c;
     sizeAccessor := sizeAccessor c; xRug := xRug c;
     xRugParams := xRugParams c; yRug := yRug c; yRugParams := yRugParams c;
     _activePoint := _activePoint c |}.

Definition with_tooltip (t : option Tooltip) (c : ScatterChart) : ScatterChart :=
  {| data := data c; isArrayOfObjects := isArrayOfObjects c; colors := colors c;
     tooltip := t; brush := brush c; points := points c;
     delaunay := delaunay c; delaunayPoint := delaunayPoint c;
     sizeAccessor := sizeAccessor c; xRug := xRug c;
     xRugParams := xRugParams c; yRug := yRug c; yRugParams := yRugParams c;
     _activePoint := _activePoint c |}.

Definition with_points (ps : list (list Point)) (c : ScatterChart) : ScatterChart :=
  {| data := data c; isArrayOfObjects := isArrayOfObjects c; colors := colors c;
     tooltip := tooltip c; brush := brush c; points := ps;
     delaunay := delaunay c; delaunayPoint := delaunayPoint c;
     sizeAccessor := sizeAccessor c; xRug := xRug c;
     xRugParams := xRugParams c; yRug := yRug c; yRugParams := yRugParams c;
     _activePoint := _activePoint c |}.

Definition with_delaunay (d : option Delaunay) (c : ScatterChart) : ScatterChart :=
  {| data := data c; isArrayOfObjects := isArrayOfObjects c; colors := colors c;
     tooltip := tooltip c; brush := brush c; points := points c;
     delaunay := d; delaunayPoint := delaunayPoint c;
     sizeAccessor := sizeAccessor c; xRug := xRug c;
     xRugParams := xRugParams c; yRug := yRug c; yRugParams := yRugParams c;
     _activePoint := _activePoint c |}.

Definition with_delaunayPoint (p : option Point) (c : ScatterChart) : ScatterChart :=
  {| data := data c; isArrayOfObjects := isArrayOfObjects c; colors := colors c;
     tooltip := tooltip c; brush := brush c; points := points c;
     delaunay := delaunay c; delaunayPoint := p;
     sizeAccessor := sizeAccessor c; xRug := xRug c;
     xRugParams := xRugParams c; yRug := yRug c; yRugParams := yRugParams c;
     _activePoint := _activePoint c |}.

Definition with_xRug (r : option Rug) (c : ScatterChart) : ScatterChart :=
  {| data := data c; isArrayOfObjects := isArrayOfObjects c; colors := colors c;
     tooltip := tooltip c; brush := brush c; points := points c;
     delaunay := delaunay c; delaunayPoint := delaunayPoint c;
     sizeAccessor := sizeAccessor c; xRug := r;
     xRugParams := xRugParams c; yRug := yRug c; yRugParams := yRugParams c;
     _activePoint := _activePoint c |}.

Definition with_yRug (r : option Rug) (c : ScatterChart) : ScatterChart :=
  {| data := data c; isArrayOfObjects := isArrayOfObjects c; colors := colors c;
     tooltip := tooltip c; brush := brush c; points := points c;
     delaunay := delaunay c; delaunayPoint := delaunayPoint c;
     sizeAccessor := sizeAccessor c; xRug := xRug c;
     xRugParams := xRugParams c; yRug := r; yRugParams := yRugParams c;
     _activePoint := _activePoint c |}.

Definition with_activePoint (a : ActivePoint) (c : ScatterChart) : ScatterChart :=
  {| data := data c; isArrayOfObjects := isArrayOfObjects c; colors := colors c;
     tooltip := tooltip c; brush := brush c; points := points c;
     delaunay := delaunay c; delaunayPoint := delaunayPoint c;
     sizeAccessor := sizeAccessor c; xRug := xRug c;
     xRugParams := xRugParams c; yRug := yRug c; yRugParams := yRugParams c;
     _activePoint := a |}.

Definition with_sizeAccessor (f : option (jsval -> option Z)) (c : ScatterChart) : ScatterChart :=
  {| data := data c; isArrayOfObjects := isArrayOfObjects c; colors := colors c;
     tooltip := tooltip c; brush := brush c; points := points c;
     delaunay := delaunay c; delaunayPoint := delaunayPoint c;
     sizeAccessor := f; xRug := xRug c;
     xRugParams := xRugParams c; yRug := yRug c; yRugParams := yRugParams c;
     _activePoint := _activePoint c |}.

Definition with_xRugParams (b : option bool) (c : ScatterChart) : ScatterChart :=
  {| data := data c; isArrayOfObjects := isArrayOfObjects c; colors := colors c;
     tooltip := tooltip c; brush := brush c; points := points c;
     delaunay := delaunay c; delaunayPoint := delaunayPoint c;
     sizeAccessor := sizeAccessor c; xRug := xRug c;
     xRugParams := b; yRug := yRug c; yRugParams := yRugParams c;
     _activePoint := _activePoint c |}.

Definition with_yRugParams (b : option bool) (c : ScatterChart) : ScatterChart :=
  {| data := data c; isArrayOfObjects := isArrayOfObjects c; colors := colors c;
     tooltip := tooltip c; brush := brush c; points := points c;
     delaunay := delaunay c; delaunayPoint := delaunayPoint c;
     sizeAccessor := sizeAccessor c; xRug := xRug c;
     xRugParams := xRugParams c; yRug := yRug c; yRugParams := b;
     _activePoint := _activePoint c |}.

(** ** Calls on collaborators and exceptions *)

(** What a method does that is visible from outside the chart object, in
    the order it happens.  [Assign_activePoint] records each assignment to
    [this._activePoint], so that the states a transition goes through can
    be read off the trace; [NormalizeDataCall] records a call of
    [normalizeData]. *)
Inductive effect :=
| RugMountTo (r : Rug)
| TooltipUpdate (a : tooltip_arg)
| TooltipHide
| PointMountTo (p : Point)
| PointUpdate (i j : Z) (fo : Q)
| DelaunayMountTo (d : Delaunay)
| MountLegend (o : legendObject)
| MountBrush (b : option string)
| Assign_activePoint (a : ActivePoint)
| NormalizeDataCall.

Variant exn := TypeError (msg : string).

Inductive outcome (A : Type) :=
| Ok (a : A)
| Throw (e : exn).
Arguments Ok {A} a.
Arguments Throw {A} e.

Definition M (A : Type) : Type :=
  ScatterChart -> ScatterChart * list effect * outcome A.

#[global] Instance M_ret : MRet M := λ A a c, (c, [], Ok a).

#[global] Instance M_bind : MBind M := λ A B f m c,
  match m c with
  | (c1, t1, Ok a) =>
      match f a c1 with
      | (c2, t2, r) => (c2, t1 ++ t2, r)
      end
  | (c1, t1, Throw e) => (c1, t1, Throw e)
  end.

Definition get {A} (f : ScatterChart -> A) : M A := λ c, (c, [], Ok (f c)).
Definition modify (f : ScatterChart -> ScatterChart) : M unit :=
  λ c, (f c, [], Ok ()).
Definition emit (e : effect) : M unit := λ c, (c, [e], Ok ()).
Definition throw {A} (e : exn) : M A := λ c, (c, [], Throw e).

(** Projections of a run. *)
Definition chart_of {A} (r : ScatterChart * list effect * outcome A) : ScatterChart :=
  r.1.1.
Definition trace_of {A} (r : ScatterChart * list effect * outcome A) : list effect :=
  r.1.2.
Definition outcome_of {A} (r : ScatterChart * list effect * outcome A) : outcome A :=
  r.2.

Definition throws {A} (r : ScatterChart * list effect * outcome A) : bool :=
  match outcome_of r with Ok _ => false | Throw _ => true end.

(** ** Array access with a JavaScript number *)

(** [a[k]]: the element at [k], [None] (undefined) when [k] is not an
    index of [a]. *)
Definition at_index {A} (a : list A) (k : Z) : option A :=
  if k <? 0 then None else a !! Z.to_nat k.

(** [this.points[i][j]], as JavaScript evaluates it: reading [j] of an
    undefined row is a TypeError; an undefined element is returned as
    [None] and fails when a method is called on it. *)
Definition point_at (ps : list (list Point)) (a : ActivePoint) : option Point :=
  row ← at_index ps (i a); at_index row (j a).

(** [this.points[i][j].update({ fillOpacity: fo })] *)
Definition update_point (a : ActivePoint) (fo : Q) : M unit :=
  ps ← get points;
  match at_index ps (i a) with
  | None => throw (TypeError "cannot read properties of undefined")
  | Some row =>
      match at_index row (j a) with
      | None => throw (TypeError "cannot read properties of undefined (reading 'update')")
      | Some p =>
          modify (with_points
            (<[Z.to_nat (i a) := <[Z.to_nat (j a) := Point_update fo p]> row]> ps)) ;;
          emit (PointUpdate (i a) (j a) fo)
      end
  end.

(** The test [x.i !== -1 && x.j !== -1]. *)
Definition is_set (a : ActivePoint) : bool :=
  negb (i a =? -1) && negb (j a =? -1).

(** ** The methods of [ScatterChart] *)

(** The guard [if (this.tooltip) ...] put before every call on the
    tooltip. *)
Definition if_tooltip (m : M unit) : M unit :=
  t ← get tooltip;
  match t with
  | None => mret ()
  | Some _ => m
  end.

(** [set activePoint ({ i, j })] *)
Definition set_activePoint (a : ActivePoint) : M unit :=
  prev ← get _activePoint;
  (* if a point was previously set, de-set it *)
  (if is_set prev then update_point prev dim else mret ()) ;;
  (* set state *)
  modify (with_activePoint a) ;;
  emit (Assign_activePoint a) ;;
  (* set point to active *)
  if is_set a then update_point a emphasized else mret ().

(** The handler returned by [onPointHandler()].  Its parameter [[point]]
    takes the first element of the array it is called with; with an empty
    array [point] is undefined and reading [point.arrayIndex] throws. *)
Definition onPointHandler (arg : list hit) : M unit :=
  match arg with
  | [] => throw (TypeError "cannot read properties of undefined (reading 'arrayIndex')")
  | point :: _ =>
      set_activePoint {| i := default 0 (arrayIndex point); j := index point |} ;;
      (* set tooltip if necessary *)
      if_tooltip (emit (TooltipUpdate (DataArg [point])))
  end.

(** The handler returned by [onLeaveHandler()]. *)
Definition onLeaveHandler : M unit :=
  set_activePoint {| i := -1; j := -1 |} ;;
  if_tooltip (emit TooltipHide).

(** A truthy test on [xRug] / [yRug] (booleans, null when not given). *)
Definition truthy (b : option bool) : bool := default false b.

(** [mountRugs (xRug, yRug)] *)
Definition mountRugs (xr yr : option bool) : M unit :=
  (if truthy xr then
     d ← get data;
     let r := {| rug_data := d; rug_orientation := horizontal |} in
     modify (with_xRug (Some r)) ;; emit (RugMountTo r)
   else mret ()) ;;
  (if truthy yr then
     d ← get data;
     let r := {| rug_data := d; rug_orientation := vertical |} in
     modify (with_yRug (Some r)) ;; emit (RugMountTo r)
   else mret ()).

(** The inner callback of [mountPoints]: one handle per record of the
    series at position [n], each mounted as soon as it is generated. *)
Fixpoint mount_pointSet (n : nat) (ds : list jsval) : M (list Point) :=
  match ds with
  | [] => mret []
  | d :: ds' =>
      cols ← get colors;
      sz ← get sizeAccessor;
      match sz with
      | None => throw (TypeError "this.sizeAccessor is not a function")
      | Some f =>
          let point :=
            generatePoint (Some d) (cols !! n) (f d) (Some dim) (Some 1) in
          emit (PointMountTo point) ;;
          rest ← mount_pointSet n ds';
          mret (point :: rest)
      end
  end.

(** The outer [this.data.map((pointSet, i) => pointSet.map(...))]: an
    element of [data] that is not an array has no [map]. *)
Fixpoint mount_pointSets (n : nat) (sets : list jsval) : M (list (list Point)) :=
  match sets with
  | [] => mret []
  | pointSet :: sets' =>
      match pointSet with
      | JObj _ => throw (TypeError "pointSet.map is not a function")
      | JArr ds =>
          row ← mount_pointSet n ds;
          rows ← mount_pointSets (S n) sets';
          mret (row :: rows)
      end
  end.

(** [mountPoints ()] *)
Definition mountPoints : M unit :=
  d ← get data;
  match d with
  | JObj _ => throw (TypeError "this.data.map is not a function")
  | JArr sets =>
      ps ← mount_pointSets 0%nat sets;
      modify (with_points ps)
  end.

(** [mountDelaunay ()] *)
Definition mountDelaunay : M unit :=
  modify (with_delaunayPoint (Some (generatePoint None None (Some 3) None None))) ;;
  d ← get data;
  let dl := {| dl_points := d; nested := true;
               onPoint := OnPointHandler; onLeave := OnLeaveHandler |} in
  modify (with_delaunay (Some dl)) ;;
  emit (DelaunayMountTo dl).

(** Modelled from the spec: [mountLegend] and [mountBrush] of
    [AbstractChart] (not in this file) (re)mount the legend and brush
    collaborators; the calls are recorded. *)
Definition mountLegend (o : legendObject) : M unit := emit (MountLegend o).
Definition mountBrush (b : option string) : M unit := emit (MountBrush b).

(** [redraw ()] *)
Definition redraw : M unit :=
  (* set up rugs if necessary *)
  xr ← get xRugParams;
  yr ← get yRugParams;
  mountRugs xr yr ;;
  (* set tooltip type *)
  if_tooltip (emit (TooltipUpdate (LegendObjectArg circle)) ;;
              emit TooltipHide) ;;
  (* set up points *)
  mountPoints ;;
  (* generate delaunator *)
  mountDelaunay ;;
  (* mount legend if any *)
  mountLegend circle ;;
  (* mount brush if necessary *)
  b ← get brush;
  mountBrush b.

(** [normalizeData ()] *)
Definition normalizeData : M unit :=
  emit NormalizeDataCall ;;
  flat ← get isArrayOfObjects;
  if (flat : bool)
  then d ← get data; modify (with_data (JArr [d]))
  else mret ().

(** ** Construction *)

(** The [sizeAccessor] argument: a field name or a function. *)
Variant accessor :=
| FieldName (name : string)
| Function (f : jsval -> option Z).

Record Args := {
  arg_data : jsval;
  arg_colors : list string;
  arg_tooltip : option Tooltip;
  arg_brush : option string;
  arg_sizeAccessor : option accessor;
  arg_xRug : option bool;
  arg_yRug : option bool;
}.

(** [d[name]] on a record; undefined when the field is missing. *)
Fixpoint field (name : string) (fs : list (string * Z)) : option Z :=
  match fs with
  | [] => None
  | (k, v) :: fs' => if String.eqb k name then Some v else field name fs'
  end.

(** Modelled from the spec: [makeAccessorFunction] of [misc/utility] (not
    in this file): a size accessor is a field name or a function from a
    record to a number; a field name stands for the function reading that
    field. *)
Definition makeAccessorFunction (a : accessor) : jsval -> option Z :=
  match a with
  | FieldName name =>
      λ d, match d with JObj fs => field name fs | JArr _ => None end
  | Function f => f
  end.

(** The test [sizeAccessor ? ... : ...]: undefined and the empty string
    are falsy. *)
Definition accessor_given (a : option accessor) : bool :=
  match a with
  | None => false
  | Some (FieldName name) => negb (String.eqb name "")
  | Some (Function _) => true
  end.

(** Modelled from the spec: the shape test of [AbstractChart] (not in this
    file) that sets [isArrayOfObjects]: the input is a single flat
    sequence of records, not grouped into series. *)
Definition is_flat (d : jsval) : bool :=
  match d with
  | JObj _ => false
  | JArr elems => forallb is_obj elems
  end.

(** Modelled from the spec: the inherited fields ([data], [colors],
    [tooltip], [brush], [isArrayOfObjects]), which the constructor of
    [AbstractChart] (not in this file) sets from its arguments.  The other
    fields are as the class declares them: [points = []],
    [delaunay = null], ..., [_activePoint = { i: -1, j: -1 }]. *)
Definition allocate (a : Args) : ScatterChart :=
  {| data := arg_data a;
     isArrayOfObjects := is_flat (arg_data a);
     colors := arg_colors a;
     tooltip := arg_tooltip a;
     brush := arg_brush a;
     points := [];
     delaunay := None;
     delaunayPoint := None;
     sizeAccessor := None;
     xRug := None;
     xRugParams := None;
     yRug := None;
     yRugParams := None;
     _activePoint := {| i := -1; j := -1 |} |}.

(** Modelled from the spec: the constructor of [AbstractChart] (not in
    this file) normalizes the data it was given, once, before anything
    consumes it. *)
Definition AbstractChart_constructor : M unit := normalizeData.

(** [constructor ({ sizeAccessor, xRug, yRug, ...args })] *)
Definition constructor (a : Args) : M unit :=
  AbstractChart_constructor ;;
  xr ← get xRugParams;
  modify (with_xRugParams (from_option Some xr (arg_xRug a))) ;;
  yr ← get yRugParams;
  modify (with_yRugParams (from_option Some yr (arg_yRug a))) ;;
  modify (with_sizeAccessor
    (Some (if accessor_given (arg_sizeAccessor a)
           then from_option makeAccessorFunction (λ _, Some 3) (arg_sizeAccessor a)
           else λ _, Some 3))) ;;
  redraw.

(** [new ScatterChart(args)] *)
Definition new_ScatterChart (a : Args) : ScatterChart * list effect * outcome unit :=
  constructor a (allocate a).

(** ** Events *)

(** What reaches a mounted chart: the host calls [redraw()], possibly
    after replacing [data], and the mounted Delaunay component calls the
    handlers it was given. *)
Inductive event :=
| Redraw (newData : option jsval)
| PointerOn (arg : list hit)
| PointerLeave.

Definition invoke (cb : callback) (arg : list hit) : M unit :=
  match cb with
  | OnPointHandler => onPointHandler arg
  | OnLeaveHandler => onLeaveHandler
  end.

Definition deliver (e : event) : M unit :=
  match e with
  | Redraw newData =>
      from_option (λ d, modify (with_data d)) (mret ()) newData ;;
      redraw
  | PointerOn arg =>
      dl ← get delaunay;
      from_option (λ d, invoke (onPoint d) arg) (mret ()) dl
  | PointerLeave =>
      dl ← get delaunay;
      from_option (λ d, invoke (onLeave d) []) (mret ()) dl
  end.

(** The host's event loop: an exception ends the handler that threw it,
    the chart stays as that handler left it and later events are still
    delivered. *)
Fixpoint run (es : list event) (c : ScatterChart)
    : ScatterChart * list effect * list (outcome unit) :=
  match es with
  | [] => (c, [], [])
  | e :: es' =>
      let r := deliver e c in
      let r' := run es' (chart_of r) in
      (r'.1.1, trace_of r ++ r'.1.2, outcome_of r :: r'.2)
  end.

Definition state_after (es : list event) (c : ScatterChart) : ScatterChart :=
  (run es c).1.1.
Definition trace_after (es : list event) (c : ScatterChart) : list effect :=
  (run es c).1.2.
Definition outcomes_after (es : list event) (c : ScatterChart) : list (outcome unit) :=
  (run es c).2.

(** ** Sample charts *)

Definition rec_xy (x y : Z) : jsval := JObj [("x", x); ("y", y)].

Definition two_series : jsval :=
  JArr [JArr [rec_xy 0 0; rec_xy 10 10]; JArr [rec_xy 0 10]].

Definition sample_args (t : option Tooltip) : Args :=
  {| arg_data := two_series; arg_colors := ["red"; "blue"];
     arg_tooltip := t; arg_brush := None; arg_sizeAccessor := None;
     arg_xRug := None; arg_yRug := None |}.

Definition sample_chart (t : option Tooltip) : ScatterChart :=
  chart_of (new_ScatterChart (sample_args t)).

Definition hit_at (s : option Z) (k : Z) (x y : Z) : hit :=
  {| arrayIndex := s; index := k; hit_data := rec_xy x y |}.

(** ** Reading the registry *)

#[global] Instance ActivePoint_eq_dec : EqDecision ActivePoint.
Proof. solve_decision. Defined.

(** A point carries the emphasized opacity. *)
Definition is_emphasized (p : Point) : bool :=
  match fillOpacity p with
  | Some q => Qeq_bool q emphasized
  | None => false
  end.

(** How many handles of the registry carry the emphasized opacity. *)
Definition count_emphasized (ps : list (list Point)) : nat :=
  length (List.filter is_emphasized (concat ps)).

(** No handle other than the one at [a] is emphasized (and none at all
    when [a] is not a position of the registry). *)
Definition only_emphasized_at (ps : list (list Point)) (a : ActivePoint) : Prop :=
  count_emphasized ps =
    match point_at ps a with
    | Some p => if is_emphasized p then 1%nat else 0%nat
    | None => 0%nat
    end.

(** The registry emphasizes at most the active point. *)
Definition styled (c : ScatterChart) : Prop :=
  only_emphasized_at (points c) (_activePoint c).

(** The value of [_activePoint] that stands for no point. *)
Definition Idle : ActivePoint := {| i := -1; j := -1 |}.

(** The assignments to [this._activePoint] and the style updates recorded
    in a trace. *)
Definition assignments (t : list effect) : list ActivePoint :=
  omap (λ e, match e with Assign_activePoint a => Some a | _ => None end) t.

Definition is_style_update (e : effect) : bool :=
  match e with PointUpdate _ _ _ => true | _ => false end.

Definition is_tooltip_call (e : effect) : bool :=
  match e with TooltipUpdate _ | TooltipHide => true | _ => false end.

Definition is_hide (e : effect) : bool :=
  match e with TooltipHide => true | _ => false end.

(** The pair an [onPoint] event resolves to. *)
Definition target (h : hit) : ActivePoint :=
  {| i := default 0 (arrayIndex h); j := index h |}.

(** Either no point, written (-1, -1), or two indices that are both
    non-negative. *)
Definition not_half_set (a : ActivePoint) : Prop :=
  (i a = -1 ∧ j a = -1) ∨ (0 ≤ i a ∧ 0 ≤ j a).



(** ** The registry after a style update *)

(** The registry after [this.points[i][j].update({ fillOpacity: fo })],
    when that element exists. *)
Definition restyled (a : ActivePoint) (fo : Q) (ps : list (list Point)) : list (list Point) :=
  match at_index ps (i a) with
  | None => ps
  | Some row =>
      match at_index row (j a) with
      | None => ps
      | Some p =>
          <[Z.to_nat (i a) := <[Z.to_nat (j a) := Point_update fo p]> row]> ps
      end
  end.

(** The first step of the setter can be carried out: no point was set, or
    the point that was set is an element of the registry. *)
Definition can_deset (c : ScatterChart) : bool :=
  negb (is_set (_activePoint c)) ||
  bool_decide (is_Some (point_at (points c) (_activePoint c))).

(** The chart and the trace after the first step of the setter. *)
Definition deset (c : ScatterChart) : ScatterChart :=
  if is_set (_activePoint c)
  then with_points (restyled (_activePoint c) dim (points c)) c
  else c.

Definition deset_trace (c : ScatterChart) : list effect :=
  if is_set (_activePoint c)
  then [PointUpdate (i (_activePoint c)) (j (_activePoint c)) dim]
  else [].

(** ** Further sample charts *)

(** The sample chart after the pointer resolved to the first record of the
    first series. *)
Definition chart_on_00 (t : option Tooltip) : ScatterChart :=
  state_after [PointerOn [hit_at (Some 0) 0 0 0]] (sample_chart t).

(** The sample chart after the host replaced the data by one series of
    one record and called [redraw()] while point (0,1) was highlighted. *)
Definition chart_redrawn_smaller : ScatterChart :=
  state_after
    [PointerOn [hit_at (Some 0) 1 10 10];
     Redraw (Some (JArr [JArr [rec_xy 5 5]]))]
    (sample_chart None).

(** The same, with new data of the same shape as the old. *)
Definition chart_redrawn_same_shape : ScatterChart :=
  state_after
    [PointerOn [hit_at (Some 0) 1 10 10];
     Redraw (Some (JArr [JArr [rec_xy 1 1; rec_xy 2 2]; JArr [rec_xy 3 3]]))]
    (sample_chart None).

(** ** A chart with and without its tooltip *)

(** A run as it looks when the calls on the tooltip are left out. *)
Definition without_tooltip {A} (r : ScatterChart * list effect * outcome A)
    : ScatterChart * list effect * outcome A :=
  (with_tooltip None (chart_of r),
   List.filter (λ e, negb (is_tooltip_call e)) (trace_of r),
   outcome_of r).

(** [m] does not depend on the tooltip: run on the chart without its
    tooltip, it does what it does on the chart, the tooltip calls left
    out. *)
Definition tooltip_blind {A} (m : M A) : Prop :=
  ∀ c, m (with_tooltip None c) = without_tooltip (m c).

(** ** What a redraw is expected to mount *)

(** The handle for record [d] of the series at position [n]. *)
Definition fresh_point (cols : list string) (f : jsval -> option Z)
    (n : nat) (d : jsval) : Point :=
  generatePoint (Some d) (cols !! n) (f d) (Some dim) (Some 1).

(** The registry for grouped data: one row of handles per series, in the
    order of the data. *)
Fixpoint registry_from (cols : list string) (f : jsval -> option Z)
    (n : nat) (sets : list jsval) : list (list Point) :=
  match sets with
  | [] => []
  | JArr ds :: sets' =>
      map (fresh_point cols f n) ds :: registry_from cols f (S n) sets'
  | JObj _ :: sets' => [] :: registry_from cols f (S n) sets'
  end.

(** The calls [mountRugs] makes. *)
Definition rug_calls (c : ScatterChart) : list effect :=
  (if truthy (xRugParams c)
   then [RugMountTo {| rug_data := data c; rug_orientation := horizontal |}]
   else []) ++
  (if truthy (yRugParams c)
   then [RugMountTo {| rug_data := data c; rug_orientation := vertical |}]
   else []).

(** The chart after [mountRugs]. *)
Definition rugs_mounted (c : ScatterChart) : ScatterChart :=
  let c1 :=
    if truthy (xRugParams c)
    then with_xRug (Some {| rug_data := data c; rug_orientation := horizontal |}) c
    else c in
  if truthy (yRugParams c)
  then with_yRug (Some {| rug_data := data c; rug_orientation := vertical |}) c1
  else c1.

(** The calls that set the tooltip type in [redraw]. *)
Definition tooltip_reset (c : ScatterChart) : list effect :=
  from_option (λ _, [TooltipUpdate (LegendObjectArg circle); TooltipHide]) []
    (tooltip c).

(** The Delaunay instance [mountDelaunay] builds over data [d]. *)
Definition index_over (d : jsval) : Delaunay :=
  {| dl_points := d; nested := true;
     onPoint := OnPointHandler; onLeave := OnLeaveHandler |}.

(** The data after normalization. *)
Definition normalized (d : jsval) : jsval :=
  if is_flat d then JArr [d] else d.

(** A chart with rugs on both axes, given a flat sequence of records. *)
Definition flat_args : Args :=
  {| arg_data := JArr [rec_xy 1 2; rec_xy 3 4]; arg_colors := ["red"];
     arg_tooltip := Some TooltipHandle; arg_brush := Some "xy";
     arg_sizeAccessor := Some (FieldName "x");
     arg_xRug := Some true; arg_yRug := Some true |}.

(** ** Invariants of computations *)

(** [m] keeps [I], makes only calls in [T] and returns values in [Q]. *)
Definition maintains (I : ScatterChart -> Prop) (T : effect -> Prop)
    {A} (Q : A -> Prop) (m : M A) : Prop :=
  ∀ c, I c ->
    I (chart_of (m c)) ∧ Forall T (trace_of (m c)) ∧
    ∀ a, outcome_of (m c) = Ok a -> Q a.

(** A computation that keeps [I] and makes only calls in [T], whatever it
    returns. *)
Abbreviation keeps I T m := (maintains I T (λ _, True) m).

(** ** Further readings of the chart *)

(** A handle without its fill opacity: what identifies it (record, color,
    radius, stroke width). *)
Definition bare (p : Point) : Point :=
  {| pt_data := pt_data p; color := color p; radius := radius p;
     fillOpacity := None; strokeWidth := strokeWidth p |}.

(** The events the Delaunay component raises. *)
Definition is_pointer_event (e : event) : bool :=
  match e with
  | Redraw _ => false
  | PointerOn _ | PointerLeave => true
  end.

(** [v] as an array: its elements, or nothing when [v] is an object. *)
Definition elems_of (v : jsval) : option (list jsval) :=
  match v with
  | JArr elems => Some elems
  | JObj _ => None
  end.

(** [data[i][j]] for data grouped into series. *)
Definition record_at (d : jsval) (a : ActivePoint) : option jsval :=
  sets ← elems_of d;
  s ← at_index sets (i a);
  ds ← elems_of s;
  at_index ds (j a).

(** The data is an array of arrays. *)
Definition is_grouped (d : jsval) : bool :=
  match d with
  | JObj _ => false
  | JArr sets => forallb is_arr sets
  end.

Definition is_rug_mount (e : effect) : bool :=
  match e with RugMountTo _ => true | _ => false end.

(** The calls that mount something: rugs, point handles, the Delaunay
    instance, the legend, the brush. *)
Definition is_mount (e : effect) : bool :=
  match e with
  | RugMountTo _ | PointMountTo _ | DelaunayMountTo _
  | MountLegend _ | MountBrush _ => true
  | _ => false
  end.

Definition is_throw {A} (o : outcome A) : bool :=
  match o with Ok _ => false | Throw _ => true end.

(** The fields of the chart that only [redraw] and the constructor
    write: everything but [points] and [_activePoint]. *)
Definition same_mounting (c c' : ScatterChart) : Prop :=
  with_activePoint (_activePoint c) (with_points (points c) c') = c.

(** The sample chart after an event that resolved to a pair outside its
    registry. *)
Definition chart_desynchronized : ScatterChart :=
  state_after [PointerOn [hit_at (Some 5) 5 0 0]] (sample_chart (Some TooltipHandle)).

(** The calls of a redraw that come after the point handles. *)
Definition is_late_mount (e : effect) : bool :=
  match e with
  | DelaunayMountTo _ | MountLegend _ | MountBrush _ => true
  | _ => false
  end.

(** The sample chart after the host replaced its data by an array that
    holds a series and, beside it, a record. *)
Definition chart_mixed_data : ScatterChart :=
  with_data (JArr [JArr [rec_xy 0 0]; rec_xy 1 1]) (chart_on_00 None).

(** A chart object given a flat sequence of records, before
    [normalizeData] is called. *)
Definition chart_flat_unnormalized : ScatterChart :=
  with_sizeAccessor (Some (λ _, Some 3)) (allocate flat_args).

(** The rugs a redraw mounts over data [d] for the options [xr], [yr]. *)
Definition rugs_for (xr yr : option bool) (d : jsval) : list effect :=
  (if truthy xr
   then [RugMountTo {| rug_data := d; rug_orientation := horizontal |}]
   else []) ++
  (if truthy yr
   then [RugMountTo {| rug_data := d; rug_orientation := vertical |}]
   else []).

(** * Properties *)

(** ** Running computations *)

Lemma run_bind {A B} (m : M A) (f : A -> M B) c :
  (m ≫= f) c =
    match m c with
    | (c1, t1, Ok a) =>
        match f a c1 with
        | (c2, t2, r) => (c2, t1 ++ t2, r)
        end
    | (c1, t1, Throw e) => (c1, t1, Throw e)
    end.
Proof. reflexivity. Qed.

Lemma run_bind_ok {A B} (m : M A) (f : A -> M B) c c1 t1 a :
  m c = (c1, t1, Ok a) ->
  (m ≫= f) c = (chart_of (f a c1), t1 ++ trace_of (f a c1), outcome_of (f a c1)).
Proof.
  intros H. rewrite run_bind, H. by destruct (f a c1) as [[??]?].
Qed.

Lemma run_bind_throw {A B} (m : M A) (f : A -> M B) c c1 t1 e :
  m c = (c1, t1, Throw e) -> (m ≫= f) c = (c1, t1, Throw e).
Proof. intros H. by rewrite run_bind, H. Qed.

Lemma run_bind_get {A B} (g : ScatterChart -> A) (f : A -> M B) c :
  (get g ≫= f) c = f (g c) c.
Proof. rewrite run_bind. unfold get. by destruct (f (g c) c) as [[??]?]. Qed.

Lemma run_bind_modify {B} (g : ScatterChart -> ScatterChart) (f : unit -> M B) c :
  (modify g ≫= f) c = f () (g c).
Proof. rewrite run_bind. unfold modify. by destruct (f () (g c)) as [[??]?]. Qed.

Lemma run_bind_emit {B} (e : effect) (f : unit -> M B) c :
  (emit e ≫= f) c =
    (chart_of (f () c), e :: trace_of (f () c), outcome_of (f () c)).
Proof. rewrite run_bind. unfold emit. by destruct (f () c) as [[??]?]. Qed.

Lemma run_bind_ret {A B} (a : A) (f : A -> M B) c :
  (mret a ≫= f) c = f a c.
Proof. rewrite run_bind. unfold mret, M_ret. by destruct (f a c) as [[??]?]. Qed.

(** ** Array access *)

Lemma at_index_Some {A} (a : list A) k x :
  at_index a k = Some x -> 0 ≤ k ∧ a !! Z.to_nat k = Some x.
Proof.
  unfold at_index. destruct (Z.ltb_spec k 0); [done|]. by intros ->.
Qed.

Lemma at_index_neg {A} (a : list A) k : k < 0 -> at_index a k = None.
Proof. unfold at_index. intros H. by destruct (Z.ltb_spec k 0); [|lia]. Qed.

Lemma at_index_nonneg {A} (a : list A) k :
  0 ≤ k -> at_index a k = a !! Z.to_nat k.
Proof. unfold at_index. intros H. by destruct (Z.ltb_spec k 0); [lia|]. Qed.

Lemma is_set_false_point_at ps a : is_set a = false -> point_at ps a = None.
Proof.
  unfold is_set, point_at. intros H.
  apply andb_false_iff in H as [H|H]; apply negb_false_iff, Z.eqb_eq in H.
  - rewrite at_index_neg by lia. done.
  - destruct (at_index ps (i a)); [|done]. simpl. apply at_index_neg. lia.
Qed.

Lemma point_at_Some ps a p :
  point_at ps a = Some p ->
  ∃ row, at_index ps (i a) = Some row ∧ at_index row (j a) = Some p.
Proof.
  unfold point_at. destruct (at_index ps (i a)) as [row|]; [|done].
  simpl. eauto.
Qed.

Lemma point_at_is_set ps a p : point_at ps a = Some p -> is_set a = true.
Proof.
  intros H. destruct (is_set a) eqn:E; [done|].
  by rewrite is_set_false_point_at in H.
Qed.

(** The registry after [this.points[i][j].update({ fillOpacity: fo })]. *)
Lemma point_at_restyled ps a row p fo b :
  at_index ps (i a) = Some row -> at_index row (j a) = Some p ->
  point_at (<[Z.to_nat (i a) := <[Z.to_nat (j a) := Point_update fo p]> row]> ps) b =
    if decide (b = a) then Some (Point_update fo p) else point_at ps b.
Proof.
  intros [Hi Hrow]%at_index_Some [Hj Hp]%at_index_Some.
  pose proof (lookup_lt_Some _ _ _ Hrow) as Hli.
  pose proof (lookup_lt_Some _ _ _ Hp) as Hlj.
  unfold point_at. destruct (decide (b = a)) as [->|Hne].
  - rewrite !at_index_nonneg by done.
    rewrite list_lookup_insert_eq by done. simpl.
    rewrite at_index_nonneg by done. by rewrite list_lookup_insert_eq.
  - destruct (Z.ltb_spec (i b) 0) as [Hn|Hn].
    { by rewrite !at_index_neg. }
    rewrite !(at_index_nonneg _ (i b)) by done.
    destruct (decide (Z.to_nat (i b) = Z.to_nat (i a))) as [Heq|Hneq].
    + rewrite Heq, list_lookup_insert_eq, Hrow by done. simpl.
      destruct (Z.ltb_spec (j b) 0) as [Hm|Hm].
      { by rewrite !at_index_neg. }
      rewrite !at_index_nonneg by done.
      rewrite list_lookup_insert_ne; [done|].
      intros Hj'. apply Hne. destruct a, b; simpl in *. f_equal; lia.
    + by rewrite list_lookup_insert_ne.
Qed.

Lemma restyled_Some ps a fo p :
  point_at ps a = Some p ->
  ∃ row, at_index ps (i a) = Some row ∧ at_index row (j a) = Some p ∧
    restyled a fo ps =
      <[Z.to_nat (i a) := <[Z.to_nat (j a) := Point_update fo p]> row]> ps.
Proof.
  intros (row & Hr & Hp)%point_at_Some. exists row.
  unfold restyled. by rewrite Hr, Hp.
Qed.

Lemma restyled_None ps a fo : point_at ps a = None -> restyled a fo ps = ps.
Proof.
  unfold point_at, restyled. destruct (at_index ps (i a)) as [row|]; [|done].
  simpl. by intros ->.
Qed.

Lemma point_at_restyled_Some ps a fo p b :
  point_at ps a = Some p ->
  point_at (restyled a fo ps) b =
    if decide (b = a) then Some (Point_update fo p) else point_at ps b.
Proof.
  intros (row & Hr & Hp & ->)%(restyled_Some _ _ fo).
  by apply point_at_restyled.
Qed.

(** ** Counting emphasized handles *)

Lemma count_insert (f : Point -> bool) (l : list Point) n old x :
  l !! n = Some old ->
  (length (List.filter f (<[n:=x]> l)) + Nat.b2n (f old) =
   length (List.filter f l) + Nat.b2n (f x))%nat.
Proof.
  intros H. pose proof (lookup_lt_Some _ _ _ H) as Hl.
  rewrite insert_take_drop by done.
  rewrite <- (take_drop_middle l n old H) at 3.
  rewrite !List.filter_app, !length_app. simpl.
  destruct (f old), (f x); simpl; lia.
Qed.

Lemma concat_insert (ps : list (list Point)) n row row' :
  ps !! n = Some row ->
  concat (<[n:=row']> ps) = concat (take n ps) ++ row' ++ concat (drop (S n) ps) ∧
  concat ps = concat (take n ps) ++ row ++ concat (drop (S n) ps).
Proof.
  intros H. pose proof (lookup_lt_Some _ _ _ H) as Hl. split.
  - rewrite insert_take_drop by done. by rewrite concat_app.
  - rewrite <- (take_drop_middle ps n row H) at 1. by rewrite concat_app.
Qed.

Lemma count_restyled ps a fo p :
  point_at ps a = Some p ->
  (count_emphasized (restyled a fo ps) + Nat.b2n (is_emphasized p) =
   count_emphasized ps + Nat.b2n (Qeq_bool fo emphasized))%nat.
Proof.
  intros (row & Hr & Hp & ->)%(restyled_Some _ _ fo).
  apply at_index_Some in Hr as [_ Hr]. apply at_index_Some in Hp as [_ Hp].
  unfold count_emphasized.
  destruct (concat_insert ps _ row (<[Z.to_nat (j a) := Point_update fo p]> row) Hr)
    as [-> ->].
  rewrite !List.filter_app, !length_app.
  pose proof (count_insert is_emphasized row _ p (Point_update fo p) Hp) as H.
  change (is_emphasized (Point_update fo p)) with (Qeq_bool fo emphasized) in H.
  lia.
Qed.

Lemma point_at_In ps b q : point_at ps b = Some q -> In q (concat ps).
Proof.
  intros (row & [_ Hr]%at_index_Some & [_ Hq]%at_index_Some)%point_at_Some.
  apply in_concat. exists row. split; apply list_elem_of_In.
  - by eapply list_elem_of_lookup_2.
  - by eapply list_elem_of_lookup_2.
Qed.

Lemma count_zero_not_emphasized ps b q :
  count_emphasized ps = 0%nat -> point_at ps b = Some q -> is_emphasized q = false.
Proof.
  unfold count_emphasized. intros H0 Hq%point_at_In.
  apply length_zero_iff_nil in H0.
  destruct (is_emphasized q) eqn:E; [|done].
  assert (In q (List.filter is_emphasized (concat ps))) as Hin
    by (apply filter_In; done).
  rewrite H0 in Hin. destruct Hin.
Qed.

(** ** The style update and the setter, step by step *)

Lemma update_point_ok c a fo p :
  point_at (points c) a = Some p ->
  update_point a fo c =
    (with_points (restyled a fo (points c)) c, [PointUpdate (i a) (j a) fo], Ok ()).
Proof.
  intros (row & Hr & Hp & Hrs)%(restyled_Some _ _ fo).
  unfold update_point. rewrite run_bind_get, Hr, Hp, run_bind_modify.
  by rewrite Hrs.
Qed.

Lemma update_point_throws c a fo :
  point_at (points c) a = None ->
  ∃ e, update_point a fo c = (c, [], Throw e).
Proof.
  unfold point_at, update_point. rewrite run_bind_get.
  destruct (at_index (points c) (i a)) as [row|]; simpl.
  - intros ->. eauto.
  - eauto.
Qed.

Lemma can_deset_false c :
  can_deset c = false ->
  is_set (_activePoint c) = true ∧ point_at (points c) (_activePoint c) = None.
Proof.
  unfold can_deset. intros [H1 H2]%orb_false_iff.
  apply negb_false_iff in H1. apply bool_decide_eq_false in H2.
  split; [done|]. destruct (point_at _ _); [|done]. destruct H2; eauto.
Qed.

Lemma can_deset_true c :
  can_deset c = true ->
  is_set (_activePoint c) = false ∨
  ∃ p, point_at (points c) (_activePoint c) = Some p.
Proof.
  unfold can_deset. intros [H|H]%orb_true_iff.
  - left. by apply negb_true_iff.
  - right. apply bool_decide_eq_true in H as [p Hp]. eauto.
Qed.

(** The first step of the setter, when it can be carried out. *)
Lemma deset_run c :
  can_deset c = true ->
  (if is_set (_activePoint c) then update_point (_activePoint c) dim else mret ()) c =
    (deset c, deset_trace c, Ok ()).
Proof.
  intros H. unfold deset, deset_trace.
  destruct (can_deset_true c H) as [Hs|[p Hp]].
  - by rewrite Hs.
  - rewrite (point_at_is_set _ _ _ Hp). by apply (update_point_ok _ _ _ p).
Qed.

Lemma deset_tooltip c : tooltip (deset c) = tooltip c.
Proof. unfold deset. by destruct (is_set _). Qed.

(** A stale reference stops the setter before anything is changed. *)
Lemma set_activePoint_stale c a :
  can_deset c = false ->
  ∃ e, set_activePoint a c = (c, [], Throw e).
Proof.
  intros [Hs Hn]%can_deset_false. unfold set_activePoint.
  rewrite run_bind_get, Hs.
  destruct (update_point_throws c (_activePoint c) dim Hn) as [e He].
  exists e. by rewrite (run_bind_throw _ _ _ _ _ _ He).
Qed.

(** The pair given to the setter has a -1: the state is assigned and no
    handle is emphasized. *)
Lemma set_activePoint_unset c a :
  can_deset c = true -> is_set a = false ->
  set_activePoint a c =
    (with_activePoint a (deset c), deset_trace c ++ [Assign_activePoint a], Ok ()).
Proof.
  intros Hc Ha. unfold set_activePoint.
  rewrite run_bind_get, (run_bind_ok _ _ _ _ _ _ (deset_run c Hc)).
  rewrite run_bind_modify, run_bind_emit, Ha. done.
Qed.

(** The pair given to the setter is a position of the registry. *)
Lemma set_activePoint_in_range c a q :
  can_deset c = true -> point_at (points (deset c)) a = Some q ->
  set_activePoint a c =
    (with_points (restyled a emphasized (points (deset c)))
       (with_activePoint a (deset c)),
     deset_trace c ++
       [Assign_activePoint a; PointUpdate (i a) (j a) emphasized],
     Ok ()).
Proof.
  intros Hc Hq. unfold set_activePoint.
  rewrite run_bind_get, (run_bind_ok _ _ _ _ _ _ (deset_run c Hc)).
  rewrite run_bind_modify, run_bind_emit, (point_at_is_set _ _ _ Hq).
  by rewrite (update_point_ok _ _ _ q).
Qed.

(** The pair given to the setter has no -1 and is not a position of the
    registry: the state is assigned, then the dereference throws. *)
Lemma set_activePoint_out_of_range c a :
  can_deset c = true -> is_set a = true ->
  point_at (points (deset c)) a = None ->
  ∃ e, set_activePoint a c =
    (with_activePoint a (deset c), deset_trace c ++ [Assign_activePoint a], Throw e).
Proof.
  intros Hc Ha Hn. unfold set_activePoint.
  rewrite run_bind_get, (run_bind_ok _ _ _ _ _ _ (deset_run c Hc)).
  rewrite run_bind_modify, run_bind_emit, Ha.
  destruct (update_point_throws (with_activePoint a (deset c)) a emphasized Hn)
    as [e He].
  exists e. by rewrite He.
Qed.


Lemma if_tooltip_run (m : M unit) c :
  if_tooltip m c = match tooltip c with None => (c, [], Ok ()) | Some _ => m c end.
Proof. unfold if_tooltip. rewrite run_bind_get. by destruct (tooltip c). Qed.

Lemma if_tooltip_emit e c :
  if_tooltip (emit e) c = (c, from_option (λ _, [e]) [] (tooltip c), Ok ()).
Proof. rewrite if_tooltip_run. by destruct (tooltip c). Qed.

Lemma Point_update_same fo p : fillOpacity p = Some fo -> Point_update fo p = p.
Proof. destruct p. simpl. by intros ->. Qed.

Lemma restyled_twice ps a fo1 fo2 p :
  point_at ps a = Some p ->
  restyled a fo2 (restyled a fo1 ps) = restyled a fo2 ps.
Proof.
  intros Hp.
  assert (point_at (restyled a fo1 ps) a = Some (Point_update fo1 p)) as Hp1.
  { rewrite (point_at_restyled_Some _ _ _ p) by done. by rewrite decide_True. }
  destruct (restyled_Some _ _ fo2 _ Hp1) as (row1 & Hr1 & Hq1 & ->).
  destruct (restyled_Some _ _ fo1 _ Hp) as (row & Hr & Hq & E1).
  rewrite E1 in *. clear E1.
  destruct (restyled_Some _ _ fo2 _ Hp) as (row' & Hr' & Hq' & ->).
  assert (row' = row) as -> by congruence.
  apply at_index_Some in Hr as [Hi Hr]. apply at_index_Some in Hq as [Hj Hq].
  rewrite at_index_nonneg in Hr1 by done.
  rewrite list_lookup_insert_eq in Hr1 by (by eapply lookup_lt_Some).
  injection Hr1 as <-.
  by rewrite list_insert_insert_eq, list_insert_insert_eq.
Qed.

Lemma restyled_same ps a fo p :
  point_at ps a = Some p -> fillOpacity p = Some fo -> restyled a fo ps = ps.
Proof.
  intros Hp Hfo. destruct (restyled_Some _ _ fo _ Hp) as (row & Hr & Hq & ->).
  apply at_index_Some in Hr as [Hi Hr]. apply at_index_Some in Hq as [Hj Hq].
  rewrite (Point_update_same _ _ Hfo).
  by rewrite (list_insert_id row), list_insert_id.
Qed.

Lemma with_points_same c : with_points (points c) c = c.
Proof. by destruct c. Qed.

Lemma with_activePoint_same c : with_activePoint (_activePoint c) c = c.
Proof. by destruct c. Qed.

(** C1, as the code has it.  In a state that highlights (i,j), an
    [onPoint] event that resolves to the same pair leaves the chart object
    as it was (same active point, same style on every handle) and does not
    throw; it is not silent, though: the setter dims and re-emphasizes
    point (i,j) and, when a tooltip is present, the tooltip is updated
    once more. *)
Theorem onPoint_same_pair_restores_chart c h rest p :
  _activePoint c = target h ->
  point_at (points c) (target h) = Some p ->
  fillOpacity p = Some emphasized ->
  chart_of (onPointHandler (h :: rest) c) = c ∧
  outcome_of (onPointHandler (h :: rest) c) = Ok () ∧
  trace_of (onPointHandler (h :: rest) c) =
    [PointUpdate (i (target h)) (j (target h)) dim;
     Assign_activePoint (target h);
     PointUpdate (i (target h)) (j (target h)) emphasized] ++
    match tooltip c with
    | None => []
    | Some _ => [TooltipUpdate (DataArg [h])]
    end.
Proof.
  intros Ha Hp Hfo.
  assert (can_deset c = true) as Hc.
  { unfold can_deset. rewrite Ha, Hp. rewrite bool_decide_eq_true_2 by eauto.
    apply orb_true_r. }
  pose proof (point_at_is_set _ _ _ Hp) as Hset.
  assert (deset c = with_points (restyled (target h) dim (points c)) c) as Hd.
  { unfold deset. by rewrite Ha, Hset. }
  assert (deset_trace c = [PointUpdate (i (target h)) (j (target h)) dim]) as Ht.
  { unfold deset_trace. by rewrite Ha, Hset. }
  assert (point_at (points (deset c)) (target h) = Some (Point_update dim p)) as Hq.
  { rewrite Hd. simpl. rewrite (point_at_restyled_Some _ _ _ p) by done.
    by rewrite decide_True. }
  unfold onPointHandler. fold (target h).
  rewrite (run_bind_ok _ _ _ _ _ _ (set_activePoint_in_range c _ _ Hc Hq)).
  rewrite if_tooltip_run. rewrite Hd, Ht. simpl.
  rewrite (restyled_twice _ _ _ _ p), (restyled_same _ _ _ p) by done.
  assert (with_points (points c)
            (with_activePoint (target h)
               (with_points (restyled (target h) dim (points c)) c)) = c) as ->.
  { rewrite <- Ha. by destruct c. }
  destruct (tooltip c); simpl; done.
Qed.

Lemma onPoint_same_pair_restores_chart_witness :
  let c := chart_on_00 (Some TooltipHandle) in
  let h := hit_at (Some 0) 0 0 0 in
  chart_of (onPointHandler [h] c) = c ∧
  outcome_of (onPointHandler [h] c) = Ok () ∧
  trace_of (onPointHandler [h] c) =
    [PointUpdate 0 0 dim; Assign_activePoint {| i := 0; j := 0 |};
     PointUpdate 0 0 emphasized; TooltipUpdate (DataArg [h])].
Proof.
  intros c h.
  apply (onPoint_same_pair_restores_chart c h []
           (generatePoint (Some (rec_xy 0 0)) (Some "red") (Some 3)
              (Some emphasized) (Some 1)));
    reflexivity.
Defined.

(** C1, as the claim states it, fails: the sample chart highlights (0,0),
    the same pair arrives again, and the handler makes two style updates
    and one tooltip update. *)
Lemma onPoint_same_pair_not_silent :
  let c := chart_on_00 (Some TooltipHandle) in
  let h := hit_at (Some 0) 0 0 0 in
  _activePoint c = target h ∧
  List.filter is_style_update (trace_of (onPointHandler [h] c)) =
    [PointUpdate 0 0 dim; PointUpdate 0 0 emphasized] ∧
  List.filter is_tooltip_call (trace_of (onPointHandler [h] c)) =
    [TooltipUpdate (DataArg [h])].
Proof. vm_compute. done. Qed.

(** The four ways a call of the setter can go. *)
Lemma set_activePoint_cases c a :
  (can_deset c = false ∧ ∃ e, set_activePoint a c = (c, [], Throw e)) ∨
  (can_deset c = true ∧ is_set a = false ∧
     set_activePoint a c =
       (with_activePoint a (deset c), deset_trace c ++ [Assign_activePoint a], Ok ())) ∨
  (can_deset c = true ∧ is_set a = true ∧ point_at (points (deset c)) a = None ∧
     ∃ e, set_activePoint a c =
       (with_activePoint a (deset c), deset_trace c ++ [Assign_activePoint a], Throw e)) ∨
  (can_deset c = true ∧ ∃ q, point_at (points (deset c)) a = Some q ∧
     set_activePoint a c =
       (with_points (restyled a emphasized (points (deset c)))
          (with_activePoint a (deset c)),
        deset_trace c ++ [Assign_activePoint a; PointUpdate (i a) (j a) emphasized],
        Ok ())).
Proof.
  destruct (can_deset c) eqn:Hc.
  - right. destruct (point_at (points (deset c)) a) as [q|] eqn:Hq.
    + right. right. split; [done|]. exists q. split; [done|].
      by apply (set_activePoint_in_range _ _ q).
    + destruct (is_set a) eqn:Ha.
      * right. left. repeat split; try done.
        by apply set_activePoint_out_of_range.
      * left. repeat split; try done. by apply set_activePoint_unset.
  - left. split; [done|]. by apply set_activePoint_stale.
Qed.

Lemma assignments_app t1 t2 : assignments (t1 ++ t2) = assignments t1 ++ assignments t2.
Proof. unfold assignments. apply omap_app. Qed.

Lemma assignments_deset_trace c : assignments (deset_trace c) = [].
Proof. unfold deset_trace. by destruct (is_set _). Qed.

(** When the first step can be carried out the setter assigns the pair it
    was given, once, whatever happens afterwards. *)
Lemma set_activePoint_assigns c a :
  can_deset c = true ->
  _activePoint (chart_of (set_activePoint a c)) = a ∧
  assignments (trace_of (set_activePoint a c)) = [a].
Proof.
  intros Hc.
  destruct (set_activePoint_cases c a)
    as [[Hf _]|[(_ & _ & ->)|[(_ & _ & _ & e & ->)|(_ & q & _ & ->)]]];
    [congruence|..];
    unfold chart_of, trace_of; simpl;
    by rewrite assignments_app, assignments_deset_trace.
Qed.

(** ** The registry emphasizes at most the active point *)

Lemma count_deset c :
  styled c -> can_deset c = true -> count_emphasized (points (deset c)) = 0%nat.
Proof.
  unfold styled, only_emphasized_at. intros Hs Hc.
  destruct (can_deset_true c Hc) as [Hset|[p Hp]].
  - unfold deset. rewrite Hset. by rewrite is_set_false_point_at in Hs.
  - unfold deset. rewrite (point_at_is_set _ _ _ Hp). simpl.
    pose proof (count_restyled (points c) (_activePoint c) dim p Hp) as H.
    rewrite Hp in Hs. change (Qeq_bool dim emphasized) with false in H.
    destruct (is_emphasized p); simpl in H; lia.
Qed.

Lemma count_emphasize ps a q :
  count_emphasized ps = 0%nat -> point_at ps a = Some q ->
  count_emphasized (restyled a emphasized ps) = 1%nat.
Proof.
  intros H0 Hq. pose proof (count_restyled ps a emphasized q Hq) as H.
  rewrite (count_zero_not_emphasized _ _ _ H0 Hq) in H.
  change (Qeq_bool emphasized emphasized) with true in H. simpl in H. lia.
Qed.

Lemma styled_set_activePoint c a :
  styled c -> styled (chart_of (set_activePoint a c)).
Proof.
  intros Hs.
  destruct (set_activePoint_cases c a)
    as [(_ & e & ->)|[(Hc & Ha & ->)|[(Hc & Ha & Hn & e & ->)|(Hc & q & Hq & ->)]]];
    unfold chart_of, styled, only_emphasized_at; simpl.
  - done.
  - rewrite is_set_false_point_at by done. by apply count_deset.
  - rewrite Hn. by apply count_deset.
  - rewrite (point_at_restyled_Some _ _ _ q), decide_True by done.
    change (is_emphasized (Point_update emphasized q)) with true. simpl.
    apply (count_emphasize _ _ q); [by apply count_deset|done].
Qed.

Lemma can_deset_in_range c p :
  point_at (points c) (_activePoint c) = Some p -> can_deset c = true.
Proof.
  intros Hp. unfold can_deset. rewrite Hp, bool_decide_eq_true_2 by eauto.
  apply orb_true_r.
Qed.

Lemma filter_style_deset_trace c :
  List.filter is_style_update (deset_trace c) = deset_trace c.
Proof. unfold deset_trace. by destruct (is_set _). Qed.

(** C3.  In a state that highlights (i,j), an [onPoint] event that
    resolves to another position (k,l) of the registry does not throw and
    ends with point (i,j) at the dim opacity 0.3, point (k,l) at the
    emphasized opacity 1 and exactly one emphasized handle in the whole
    registry; the active point is assigned once, to (k,l), so the state
    never passes through (-1,-1).  [only_emphasized_at] is what every state
    the chart can be in satisfies (see [styled_run]): no handle other than
    the active one is emphasized. *)
Theorem onPoint_other_pair_moves_highlight c h rest p q :
  point_at (points c) (_activePoint c) = Some p ->
  only_emphasized_at (points c) (_activePoint c) ->
  target h ≠ _activePoint c ->
  point_at (points c) (target h) = Some q ->
  outcome_of (onPointHandler (h :: rest) c) = Ok () ∧
  _activePoint (chart_of (onPointHandler (h :: rest) c)) = target h ∧
  fillOpacity <$> point_at (points (chart_of (onPointHandler (h :: rest) c)))
                    (_activePoint c) = Some (Some dim) ∧
  fillOpacity <$> point_at (points (chart_of (onPointHandler (h :: rest) c)))
                    (target h) = Some (Some emphasized) ∧
  count_emphasized (points (chart_of (onPointHandler (h :: rest) c))) = 1%nat ∧
  assignments (trace_of (onPointHandler (h :: rest) c)) = [target h] ∧
  List.filter is_style_update (trace_of (onPointHandler (h :: rest) c)) =
    [PointUpdate (i (_activePoint c)) (j (_activePoint c)) dim;
     PointUpdate (i (target h)) (j (target h)) emphasized].
Proof.
  intros Hp Hs Hne Hq.
  pose proof (can_deset_in_range c p Hp) as Hc.
  pose proof (point_at_is_set _ _ _ Hp) as Hset.
  assert (deset c = with_points (restyled (_activePoint c) dim (points c)) c) as Hd.
  { unfold deset. by rewrite Hset. }
  assert (deset_trace c =
            [PointUpdate (i (_activePoint c)) (j (_activePoint c)) dim]) as Ht.
  { unfold deset_trace. by rewrite Hset. }
  assert (point_at (points (deset c)) (target h) = Some q) as Hq'.
  { rewrite Hd. simpl. rewrite (point_at_restyled_Some _ _ _ p) by done.
    by rewrite decide_False. }
  pose proof (count_deset c Hs Hc) as H0.
  unfold onPointHandler. fold (target h).
  rewrite (run_bind_ok _ _ _ _ _ _ (set_activePoint_in_range c _ _ Hc Hq')).
  rewrite if_tooltip_emit.
  unfold chart_of, trace_of, outcome_of. simpl.
  repeat split.
  - rewrite (point_at_restyled_Some _ _ _ q) by done.
    rewrite decide_False by done. rewrite Hd. simpl.
    rewrite (point_at_restyled_Some _ _ _ p), decide_True by done. done.
  - rewrite (point_at_restyled_Some _ _ _ q), decide_True by done. done.
  - by apply (count_emphasize _ _ q).
  - rewrite !assignments_app, assignments_deset_trace. simpl.
    by destruct (tooltip _).
  - rewrite !List.filter_app, filter_style_deset_trace, Ht. simpl.
    by destruct (tooltip _).
Qed.

Lemma onPoint_other_pair_moves_highlight_witness :
  let c := chart_on_00 (Some TooltipHandle) in
  let h := hit_at (Some 1) 0 0 10 in
  outcome_of (onPointHandler [h] c) = Ok () ∧
  _activePoint (chart_of (onPointHandler [h] c)) = {| i := 1; j := 0 |} ∧
  fillOpacity <$> point_at (points (chart_of (onPointHandler [h] c)))
                    {| i := 0; j := 0 |} = Some (Some dim) ∧
  fillOpacity <$> point_at (points (chart_of (onPointHandler [h] c)))
                    {| i := 1; j := 0 |} = Some (Some emphasized) ∧
  count_emphasized (points (chart_of (onPointHandler [h] c))) = 1%nat ∧
  assignments (trace_of (onPointHandler [h] c)) = [{| i := 1; j := 0 |}] ∧
  List.filter is_style_update (trace_of (onPointHandler [h] c)) =
    [PointUpdate 0 0 dim; PointUpdate 1 0 emphasized].
Proof.
  intros c h.
  apply (onPoint_other_pair_moves_highlight c h []
           (generatePoint (Some (rec_xy 0 0)) (Some "red") (Some 3)
              (Some emphasized) (Some 1))
           (generatePoint (Some (rec_xy 0 10)) (Some "blue") (Some 3)
              (Some dim) (Some 1)));
    [reflexivity | vm_compute; reflexivity | vm_compute; congruence | reflexivity].
Defined.

Lemma filter_hide_deset_trace c : List.filter is_hide (deset_trace c) = [].
Proof. unfold deset_trace. by destruct (is_set _). Qed.

Lemma onLeaveHandler_run c :
  can_deset c = true ->
  onLeaveHandler c =
    (with_activePoint Idle (deset c),
     (deset_trace c ++ [Assign_activePoint Idle]) ++
       from_option (λ _, [TooltipHide]) [] (tooltip c),
     Ok ()).
Proof.
  intros Hc. unfold onLeaveHandler. fold Idle.
  rewrite (run_bind_ok _ _ _ _ _ _ (set_activePoint_unset c Idle Hc eq_refl)).
  rewrite if_tooltip_emit. unfold chart_of, trace_of, outcome_of. simpl.
  by rewrite deset_tooltip.
Qed.

(** C4, as the code has it.  When the active point is none or a position
    of the registry, an [onLeave] event does not throw, dims the point
    that was highlighted, leaves the state at (-1,-1) with no emphasized
    handle in the registry, and calls [hide()] exactly once when a tooltip
    is present.  That holds for every leave: in a state that is already
    (-1,-1) the chart object stays as it was and no style is updated, but
    [hide()] is called again. *)
Theorem onLeave_dims_and_hides c :
  can_deset c = true ->
  only_emphasized_at (points c) (_activePoint c) ->
  outcome_of (onLeaveHandler c) = Ok () ∧
  _activePoint (chart_of (onLeaveHandler c)) = Idle ∧
  count_emphasized (points (chart_of (onLeaveHandler c))) = 0%nat ∧
  (∀ p, point_at (points c) (_activePoint c) = Some p ->
        fillOpacity <$> point_at (points (chart_of (onLeaveHandler c)))
                          (_activePoint c) = Some (Some dim)) ∧
  List.filter is_hide (trace_of (onLeaveHandler c)) =
    from_option (λ _, [TooltipHide]) [] (tooltip c) ∧
  (_activePoint c = Idle ->
     chart_of (onLeaveHandler c) = c ∧
     List.filter is_style_update (trace_of (onLeaveHandler c)) = []).
Proof.
  intros Hc Hs. rewrite (onLeaveHandler_run c Hc).
  unfold chart_of, trace_of, outcome_of. simpl.
  split; [done|]. split; [done|]. split; [by apply count_deset|].
  split; [|split; [|intros Hidle; split]].
  - intros p Hp. unfold deset. rewrite (point_at_is_set _ _ _ Hp). simpl.
    rewrite (point_at_restyled_Some _ _ _ p), decide_True by done. done.
  - rewrite !List.filter_app, filter_hide_deset_trace. simpl.
    by destruct (tooltip c).
  - unfold deset. rewrite Hidle. simpl. rewrite <- Hidle.
    apply with_activePoint_same.
  - unfold deset_trace. rewrite Hidle. simpl. by destruct (tooltip c).
Qed.

Lemma onLeave_dims_and_hides_witness :
  let c := chart_on_00 (Some TooltipHandle) in
  outcome_of (onLeaveHandler c) = Ok () ∧
  _activePoint (chart_of (onLeaveHandler c)) = Idle ∧
  count_emphasized (points (chart_of (onLeaveHandler c))) = 0%nat ∧
  (∀ p, point_at (points c) (_activePoint c) = Some p ->
        fillOpacity <$> point_at (points (chart_of (onLeaveHandler c)))
                          (_activePoint c) = Some (Some dim)) ∧
  List.filter is_hide (trace_of (onLeaveHandler c)) = [TooltipHide] ∧
  (_activePoint c = Idle ->
     chart_of (onLeaveHandler c) = c ∧
     List.filter is_style_update (trace_of (onLeaveHandler c)) = []).
Proof.
  intros c.
  apply (onLeave_dims_and_hides c); [reflexivity | vm_compute; reflexivity].
Defined.

(** C4, as the claim states it, fails: the sample chart with a tooltip is
    in state (-1,-1) after two leaves in a row, and each of them called
    [hide()]. *)
Lemma onLeave_when_idle_hides_again :
  _activePoint (sample_chart (Some TooltipHandle)) = Idle ∧
  trace_of (onLeaveHandler (sample_chart (Some TooltipHandle))) =
    [Assign_activePoint Idle; TooltipHide] ∧
  List.filter is_hide
    (trace_after [PointerLeave; PointerLeave] (chart_on_00 (Some TooltipHandle))) =
    [TooltipHide; TooltipHide].
Proof. by vm_compute. Qed.




(** C10.  When the hit point carries no series index, the handler calls
    the setter with series index 0: provided the previous active point can
    be de-set, the state after the event is (0, point.index), assigned
    once, and it is not half-set when [index] is an array position. *)
Theorem onPoint_missing_arrayIndex_targets_series_0 c h rest :
  arrayIndex h = None ->
  can_deset c = true ->
  _activePoint (chart_of (onPointHandler (h :: rest) c)) =
    {| i := 0; j := index h |} ∧
  assignments (trace_of (onPointHandler (h :: rest) c)) =
    [{| i := 0; j := index h |}] ∧
  (0 ≤ index h ->
   not_half_set (_activePoint (chart_of (onPointHandler (h :: rest) c)))).
Proof.
  intros Hn Hc. unfold onPointHandler. rewrite Hn. simpl default.
  set (a := {| i := 0; j := index h |}).
  destruct (set_activePoint_assigns c a Hc) as [Ha Has].
  rewrite run_bind.
  destruct (set_activePoint a c) as [[c1 t1] [[]|e]] eqn:E;
    unfold chart_of, trace_of in *; simpl in *.
  - rewrite if_tooltip_emit. simpl. rewrite assignments_app, Has.
    repeat split; try done.
    + by destruct (tooltip c1).
    + intros Hi. right. rewrite Ha. simpl. lia.
  - repeat split; try done. intros Hi. right. rewrite Ha. simpl. lia.
Qed.

Lemma onPoint_missing_arrayIndex_targets_series_0_witness :
  let c := sample_chart None in
  let h := hit_at None 1 10 10 in
  _activePoint (chart_of (onPointHandler [h] c)) = {| i := 0; j := 1 |} ∧
  assignments (trace_of (onPointHandler [h] c)) = [{| i := 0; j := 1 |}] ∧
  (0 ≤ 1 -> not_half_set (_activePoint (chart_of (onPointHandler [h] c)))).
Proof.
  intros c h.
  apply (onPoint_missing_arrayIndex_targets_series_0 c h []); reflexivity.
Defined.

(** ** Rules for invariants of computations *)

Section Maintains.
Variable I : ScatterChart -> Prop.
Variable T : effect -> Prop.

Lemma maintains_ret {A} (Q : A -> Prop) a : Q a -> maintains I T Q (mret a).
Proof. intros Hq c Hc. repeat split; [done|constructor|]. by intros ? [= <-]. Qed.

Lemma maintains_throw {A} (Q : A -> Prop) e : maintains I T Q (throw e).
Proof. intros c Hc. repeat split; [done|constructor|done]. Qed.

Lemma maintains_emit e : T e -> keeps I T (emit e).
Proof. intros He c Hc. repeat split; [done|by repeat constructor]. Qed.

Lemma maintains_modify f : (∀ c, I c -> I (f c)) -> keeps I T (modify f).
Proof. intros Hf c Hc. repeat split; [by apply Hf|constructor]. Qed.

Lemma maintains_get {A} (g : ScatterChart -> A) :
  maintains I T (λ a, ∃ c, I c ∧ a = g c) (get g).
Proof.
  intros c Hc. repeat split; [done|constructor|]. intros ? [= <-]. eauto.
Qed.

Lemma maintains_bind {A B} (Q : A -> Prop) (R : B -> Prop) m (f : A -> M B) :
  maintains I T Q m -> (∀ a, Q a -> maintains I T R (f a)) ->
  maintains I T R (m ≫= f).
Proof.
  intros Hm Hf c Hc. destruct (Hm c Hc) as (H1 & H2 & H3).
  rewrite run_bind. destruct (m c) as [[c1 t1] [a|e]]; simpl in *.
  - destruct (Hf a (H3 a eq_refl) c1 H1) as (H4 & H5 & H6).
    destruct (f a c1) as [[c2 t2] r]; simpl in *.
    repeat split; [done|by apply Forall_app|done].
  - repeat split; done.
Qed.

Lemma maintains_weaken {A} (Q R : A -> Prop) m :
  maintains I T Q m -> (∀ a, Q a -> R a) -> maintains I T R m.
Proof.
  intros Hm HQR c Hc. destruct (Hm c Hc) as (H1 & H2 & H3). eauto.
Qed.
End Maintains.

Lemma keeps_bind I T {A B} (Q : A -> Prop) m (f : A -> M B) :
  maintains I T Q m -> (∀ a, Q a -> keeps I T (f a)) -> keeps I T (m ≫= f).
Proof. apply maintains_bind. Qed.

Lemma keeps_seq I T {A B} m (f : A -> M B) :
  keeps I T m -> (∀ a, keeps I T (f a)) -> keeps I T (m ≫= f).
Proof. intros Hm Hf. eapply maintains_bind; [exact Hm|]. intros a _. apply Hf. Qed.

(** ** What the methods leave alone *)

Lemma filter_emphasized_fresh (f : jsval -> option Z) (cols : list string) (n : nat) d rest :
  List.filter is_emphasized rest = [] ->
  List.filter is_emphasized
    (generatePoint (Some d) (cols !! n) (f d) (Some dim) (Some 1) :: rest) = [].
Proof. intros H. simpl. by rewrite H. Qed.

Lemma count_emphasized_cons row rows :
  List.filter is_emphasized row = [] ->
  count_emphasized rows = 0%nat -> count_emphasized (row :: rows) = 0%nat.
Proof.
  unfold count_emphasized. simpl. intros Hr Hrs.
  by rewrite List.filter_app, length_app, Hr, Hrs.
Qed.

(** [redraw] under an invariant [I] and a set of calls [T]: [I] may
    depend on the registry as long as every registry without an
    emphasized handle will do; the tooltip calls are in [T], or [I] says
    that there is no tooltip. *)
Section Redraw_keeps.
Variable I : ScatterChart -> Prop.
Variable T : effect -> Prop.
Hypothesis I_fresh : ∀ c ps, count_emphasized ps = 0%nat -> I c -> I (with_points ps c).
Hypothesis I_xRug : ∀ c r, I c -> I (with_xRug r c).
Hypothesis I_yRug : ∀ c r, I c -> I (with_yRug r c).
Hypothesis I_delaunay : ∀ c d, I c -> I (with_delaunay d c).
Hypothesis I_delaunayPoint : ∀ c p, I c -> I (with_delaunayPoint p c).
Hypothesis T_other :
  ∀ e, is_tooltip_call e = false -> e ≠ NormalizeDataCall -> T e.
Hypothesis T_tooltip :
  (∀ c, I c -> tooltip c = None) ∨ (∀ e, is_tooltip_call e = true -> T e).

Lemma keeps_if_tooltip_emit e :
  is_tooltip_call e = true -> keeps I T (if_tooltip (emit e)).
Proof.
  intros He c Hc. rewrite if_tooltip_emit.
  unfold chart_of, trace_of, outcome_of. simpl. repeat split; [done|].
  destruct T_tooltip as [Hn|Ht].
  - rewrite (Hn c Hc). constructor.
  - destruct (tooltip c); simpl; repeat constructor. by apply Ht.
Qed.

Lemma keeps_if_tooltip_emit2 e1 e2 :
  is_tooltip_call e1 = true -> is_tooltip_call e2 = true ->
  keeps I T (if_tooltip (emit e1 ;; emit e2)).
Proof.
  intros H1 H2 c Hc. rewrite if_tooltip_run.
  destruct T_tooltip as [Hn|Ht].
  - rewrite (Hn c Hc). repeat split; [done|constructor].
  - destruct (tooltip c); repeat split; try done; repeat constructor;
      by apply Ht.
Qed.

Lemma keeps_mountRugs xr yr : keeps I T (mountRugs xr yr).
Proof.
  unfold mountRugs. apply keeps_seq.
  - destruct (truthy xr); [|by apply maintains_ret].
    eapply keeps_bind; [apply maintains_get|]. intros d _.
    apply keeps_seq; [apply maintains_modify; auto|]. intros _.
    apply maintains_emit. by apply T_other.
  - intros _. destruct (truthy yr); [|by apply maintains_ret].
    eapply keeps_bind; [apply maintains_get|]. intros d _.
    apply keeps_seq; [apply maintains_modify; auto|]. intros _.
    apply maintains_emit. by apply T_other.
Qed.

Lemma fresh_mount_pointSet n ds :
  maintains I T (λ row, List.filter is_emphasized row = []) (mount_pointSet n ds).
Proof.
  induction ds as [|d ds IH]; simpl; [by apply maintains_ret|].
  eapply maintains_bind; [apply maintains_get|]. intros cols _.
  eapply maintains_bind; [apply maintains_get|]. intros [f|] _;
    [|apply maintains_throw].
  eapply maintains_bind; [apply maintains_emit; by apply T_other|]. intros _ _.
  eapply maintains_bind; [apply IH|]. intros rest Hrest.
  apply maintains_ret. by apply filter_emphasized_fresh.
Qed.

Lemma fresh_mount_pointSets n sets :
  maintains I T (λ rows, count_emphasized rows = 0%nat) (mount_pointSets n sets).
Proof.
  revert n. induction sets as [|[fs|ds] sets IH]; intros n; simpl.
  - by apply maintains_ret.
  - apply maintains_throw.
  - eapply maintains_bind; [apply fresh_mount_pointSet|]. intros row Hrow.
    eapply maintains_bind; [apply IH|]. intros rows Hrows.
    apply maintains_ret. by apply count_emphasized_cons.
Qed.

Lemma keeps_mountPoints : keeps I T mountPoints.
Proof.
  unfold mountPoints. eapply keeps_bind; [apply maintains_get|].
  intros [fs|sets] _; [apply maintains_throw|].
  eapply keeps_bind; [apply fresh_mount_pointSets|]. intros ps Hps.
  apply maintains_modify; auto.
Qed.

Lemma keeps_mountDelaunay : keeps I T mountDelaunay.
Proof.
  unfold mountDelaunay.
  apply keeps_seq; [apply maintains_modify; auto|]. intros _.
  eapply keeps_bind; [apply maintains_get|]. intros d _.
  apply keeps_seq; [apply maintains_modify; auto|]. intros _.
  apply maintains_emit. by apply T_other.
Qed.

Lemma keeps_redraw : keeps I T redraw.
Proof.
  unfold redraw.
  eapply keeps_bind; [apply maintains_get|]. intros xr _.
  eapply keeps_bind; [apply maintains_get|]. intros yr _.
  apply keeps_seq; [apply keeps_mountRugs|]. intros _.
  apply keeps_seq; [by apply keeps_if_tooltip_emit2|]. intros _.
  apply keeps_seq; [apply keeps_mountPoints|]. intros _.
  apply keeps_seq; [apply keeps_mountDelaunay|]. intros _.
  apply keeps_seq; [apply maintains_emit; by apply T_other|]. intros _.
  eapply keeps_bind; [apply maintains_get|]. intros b _.
  apply maintains_emit; by apply T_other.
Qed.

(** The handlers, for an invariant that does not depend on the registry
    or on the active point. *)
Hypothesis I_points : ∀ c ps, I c -> I (with_points ps c).
Hypothesis I_activePoint : ∀ c a, I c -> I (with_activePoint a c).
Hypothesis I_data : ∀ c d, I c -> I (with_data d c).

Lemma keeps_update_point a fo : keeps I T (update_point a fo).
Proof.
  unfold update_point.
  eapply keeps_bind; [apply maintains_get|]. intros ps _.
  destruct (at_index ps (i a)) as [row|]; [|apply maintains_throw].
  destruct (at_index row (j a)) as [p|]; [|apply maintains_throw].
  apply keeps_seq; [apply maintains_modify; auto|]. intros _.
  apply maintains_emit. by apply T_other.
Qed.

Lemma keeps_set_activePoint a : keeps I T (set_activePoint a).
Proof.
  unfold set_activePoint.
  eapply keeps_bind; [apply maintains_get|]. intros prev _.
  apply keeps_seq.
  { destruct (is_set prev); [apply keeps_update_point|by apply maintains_ret]. }
  intros _.
  apply keeps_seq; [apply maintains_modify; auto|]. intros _.
  apply keeps_seq; [apply maintains_emit; by apply T_other|]. intros _.
  destruct (is_set a); [apply keeps_update_point|by apply maintains_ret].
Qed.

Lemma keeps_invoke cb arg : keeps I T (invoke cb arg).
Proof.
  destruct cb; simpl.
  - unfold onPointHandler. destruct arg as [|point rest];
      [apply maintains_throw|].
    apply keeps_seq; [apply keeps_set_activePoint|]. intros _.
    by apply keeps_if_tooltip_emit.
  - unfold onLeaveHandler.
    apply keeps_seq; [apply keeps_set_activePoint|]. intros _.
    by apply keeps_if_tooltip_emit.
Qed.

Lemma keeps_deliver e : keeps I T (deliver e).
Proof.
  destruct e as [[d|]|arg|]; simpl.
  - apply keeps_seq; [apply maintains_modify; auto|]. intros _.
    apply keeps_redraw.
  - apply keeps_seq; [by apply maintains_ret|]. intros _. apply keeps_redraw.
  - eapply keeps_bind; [apply maintains_get|]. intros [d|] _; simpl.
    + apply keeps_invoke.
    + by apply maintains_ret.
  - eapply keeps_bind; [apply maintains_get|]. intros [d|] _; simpl.
    + apply keeps_invoke.
    + by apply maintains_ret.
Qed.
End Redraw_keeps.

(** ** The chart object after a handler *)

Lemma chart_onPointHandler c h rest :
  chart_of (onPointHandler (h :: rest) c) = chart_of (set_activePoint (target h) c).
Proof.
  unfold onPointHandler. fold (target h). rewrite run_bind.
  destruct (set_activePoint (target h) c) as [[c1 t1] [[]|e]]; [|done].
  by rewrite if_tooltip_emit.
Qed.

Lemma chart_onLeaveHandler c :
  chart_of (onLeaveHandler c) = chart_of (set_activePoint Idle c).
Proof.
  unfold onLeaveHandler. fold Idle. rewrite run_bind.
  destruct (set_activePoint Idle c) as [[c1 t1] [[]|e]]; [|done].
  by rewrite if_tooltip_emit.
Qed.




(** [redraw], and a replacement of the data, leave the active point as it
    is. *)
Lemma redraw_keeps_activePoint c :
  _activePoint (chart_of (redraw c)) = _activePoint c.
Proof.
  by apply (keeps_redraw (λ c', _activePoint c' = _activePoint c) (λ _, True));
    auto.
Qed.



Lemma state_after_cons e es c :
  state_after (e :: es) c = state_after es (chart_of (deliver e c)).
Proof. reflexivity. Qed.

Lemma trace_after_cons e es c :
  trace_after (e :: es) c =
    trace_of (deliver e c) ++ trace_after es (chart_of (deliver e c)).
Proof. reflexivity. Qed.

Lemma outcomes_after_cons e es c :
  outcomes_after (e :: es) c =
    outcome_of (deliver e c) :: outcomes_after es (chart_of (deliver e c)).
Proof. reflexivity. Qed.


(** The constructor leaves the active point at its initial value and
    mounts a registry without an emphasized handle. *)
Lemma new_ScatterChart_initial a :
  _activePoint (chart_of (new_ScatterChart a)) = Idle ∧
  count_emphasized (points (chart_of (new_ScatterChart a))) = 0%nat.
Proof.
  set (I := λ c : ScatterChart,
         _activePoint c = Idle ∧ count_emphasized (points c) = 0%nat).
  assert (keeps I (λ _, True) (constructor a)) as H.
  { unfold constructor, AbstractChart_constructor, normalizeData.
    apply keeps_seq.
    { apply keeps_seq; [by apply maintains_emit|]. intros _.
      eapply keeps_bind; [apply maintains_get|]. intros [|] _.
      - eapply keeps_bind; [apply maintains_get|]. intros d _.
        by apply maintains_modify.
      - by apply maintains_ret. }
    intros _.
    eapply keeps_bind; [apply maintains_get|]. intros xr _.
    apply keeps_seq; [by apply maintains_modify|]. intros _.
    eapply keeps_bind; [apply maintains_get|]. intros yr _.
    apply keeps_seq; [by apply maintains_modify|]. intros _.
    apply keeps_seq; [by apply maintains_modify|]. intros _.
    apply keeps_redraw; unfold I; simpl; auto.
    intros c ps Hps [Hc _]. done. }
  by apply H.
Qed.




(** ** The registry emphasizes at most the active point, in every state *)

Lemma styled_fresh c ps :
  count_emphasized ps = 0%nat -> styled (with_points ps c).
Proof.
  intros H0. unfold styled, only_emphasized_at. simpl. rewrite H0.
  destruct (point_at ps (_activePoint c)) as [p|] eqn:Hp; [|done].
  by rewrite (count_zero_not_emphasized _ _ _ H0 Hp).
Qed.

Lemma styled_redraw c : styled c -> styled (chart_of (redraw c)).
Proof.
  intros Hs.
  set (I := λ c' : ScatterChart,
         _activePoint c' = _activePoint c ∧
         (points c' = points c ∨ count_emphasized (points c') = 0%nat)).
  assert (I (chart_of (redraw c))) as [Ha [Hp|Hp]].
  { apply (keeps_redraw I (λ _, True)); unfold I; simpl; auto.
    intros c' ps Hps [Hc' _]. auto. }
  - unfold styled. by rewrite Ha, Hp.
  - rewrite <- (with_points_same (chart_of (redraw c))).
    by apply styled_fresh.
Qed.

Lemma styled_deliver e c : styled c -> styled (chart_of (deliver e c)).
Proof.
  intros Hs. destruct e as [[d|]|arg|]; simpl.
  - rewrite run_bind_modify. by apply styled_redraw.
  - rewrite run_bind_ret. by apply styled_redraw.
  - rewrite run_bind_get. destruct (delaunay c) as [d|]; simpl; [|done].
    destruct (onPoint d); simpl.
    + destruct arg as [|h rest]; [done|]. rewrite chart_onPointHandler.
      by apply styled_set_activePoint.
    + rewrite chart_onLeaveHandler. by apply styled_set_activePoint.
  - rewrite run_bind_get. destruct (delaunay c) as [d|]; simpl; [|done].
    destruct (onLeave d); simpl.
    + done.
    + rewrite chart_onLeaveHandler. by apply styled_set_activePoint.
Qed.

(** Every state the chart reaches emphasizes at most its active point. *)
Lemma styled_run a es :
  styled (state_after es (chart_of (new_ScatterChart a))).
Proof.
  assert (styled (chart_of (new_ScatterChart a))) as H.
  { destruct (new_ScatterChart_initial a) as [Ha H0].
    rewrite <- (with_points_same (chart_of (new_ScatterChart a))).
    by apply styled_fresh. }
  revert H. generalize (chart_of (new_ScatterChart a)).
  induction es as [|e es IH]; intros c Hc; [done|].
  rewrite state_after_cons. apply IH. by apply styled_deliver.
Qed.

(** ** The tooltip is optional *)

Lemma blind_ret {A} (a : A) : tooltip_blind (mret a).
Proof. done. Qed.

Lemma blind_throw {A} e : tooltip_blind (throw (A:=A) e).
Proof. done. Qed.

Lemma blind_emit e : is_tooltip_call e = false -> tooltip_blind (emit e).
Proof. intros He c. unfold without_tooltip, emit. simpl. by rewrite He. Qed.

Lemma blind_modify f :
  (∀ c, f (with_tooltip None c) = with_tooltip None (f c)) ->
  tooltip_blind (modify f).
Proof. intros Hf c. unfold without_tooltip, modify. simpl. by rewrite Hf. Qed.

Lemma blind_bind {A B} (m : M A) (f : A -> M B) :
  tooltip_blind m -> (∀ a, tooltip_blind (f a)) -> tooltip_blind (m ≫= f).
Proof.
  intros Hm Hf c. rewrite !run_bind, Hm.
  unfold without_tooltip, chart_of, trace_of, outcome_of.
  destruct (m c) as [[c1 t1] [a|e]]; simpl; [|done].
  rewrite Hf. unfold without_tooltip, chart_of, trace_of, outcome_of.
  destruct (f a c1) as [[c2 t2] r]; simpl. by rewrite List.filter_app.
Qed.

Lemma blind_bind_get {A B} (g : ScatterChart -> A) (f : A -> M B) :
  (∀ c, g (with_tooltip None c) = g c) ->
  (∀ a, tooltip_blind (f a)) -> tooltip_blind (get g ≫= f).
Proof. intros Hg Hf c. rewrite !run_bind_get, Hg. apply Hf. Qed.

Lemma blind_if_tooltip_emit e :
  is_tooltip_call e = true -> tooltip_blind (if_tooltip (emit e)).
Proof.
  intros He c. rewrite !if_tooltip_emit. unfold without_tooltip. simpl.
  destruct (tooltip c); simpl; [by rewrite He|done].
Qed.

Lemma blind_if_tooltip_emit2 e1 e2 :
  is_tooltip_call e1 = true -> is_tooltip_call e2 = true ->
  tooltip_blind (if_tooltip (emit e1 ;; emit e2)).
Proof.
  intros H1 H2 c. rewrite !if_tooltip_run. unfold without_tooltip. simpl.
  destruct (tooltip c); simpl; [by rewrite H1, H2|done].
Qed.

Lemma blind_update_point a fo : tooltip_blind (update_point a fo).
Proof.
  unfold update_point. apply blind_bind_get; [done|]. intros ps.
  destruct (at_index ps (i a)) as [row|]; [|apply blind_throw].
  destruct (at_index row (j a)) as [p|]; [|apply blind_throw].
  apply blind_bind; [by apply blind_modify|]. intros _. by apply blind_emit.
Qed.

Lemma blind_set_activePoint a : tooltip_blind (set_activePoint a).
Proof.
  unfold set_activePoint. apply blind_bind_get; [done|]. intros prev.
  apply blind_bind.
  { destruct (is_set prev); [apply blind_update_point|apply blind_ret]. }
  intros _. apply blind_bind; [by apply blind_modify|]. intros _.
  apply blind_bind; [by apply blind_emit|]. intros _.
  destruct (is_set a); [apply blind_update_point|apply blind_ret].
Qed.

Lemma blind_invoke cb arg : tooltip_blind (invoke cb arg).
Proof.
  destruct cb; simpl.
  - unfold onPointHandler. destruct arg as [|point rest]; [apply blind_throw|].
    apply blind_bind; [apply blind_set_activePoint|]. intros _.
    by apply blind_if_tooltip_emit.
  - unfold onLeaveHandler.
    apply blind_bind; [apply blind_set_activePoint|]. intros _.
    by apply blind_if_tooltip_emit.
Qed.

Lemma blind_mountRugs xr yr : tooltip_blind (mountRugs xr yr).
Proof.
  unfold mountRugs. apply blind_bind.
  - destruct (truthy xr); [|apply blind_ret].
    apply blind_bind_get; [done|]. intros d.
    apply blind_bind; [by apply blind_modify|]. intros _. by apply blind_emit.
  - intros _. destruct (truthy yr); [|apply blind_ret].
    apply blind_bind_get; [done|]. intros d.
    apply blind_bind; [by apply blind_modify|]. intros _. by apply blind_emit.
Qed.

Lemma blind_mount_pointSet n ds : tooltip_blind (mount_pointSet n ds).
Proof.
  induction ds as [|d ds IH]; simpl; [apply blind_ret|].
  apply blind_bind_get; [done|]. intros cols.
  apply blind_bind_get; [done|]. intros [f|]; [|apply blind_throw].
  apply blind_bind; [by apply blind_emit|]. intros _.
  apply blind_bind; [apply IH|]. intros rest. apply blind_ret.
Qed.

Lemma blind_mount_pointSets n sets : tooltip_blind (mount_pointSets n sets).
Proof.
  revert n. induction sets as [|[fs|ds] sets IH]; intros n; simpl.
  - apply blind_ret.
  - apply blind_throw.
  - apply blind_bind; [apply blind_mount_pointSet|]. intros row.
    apply blind_bind; [apply IH|]. intros rows. apply blind_ret.
Qed.

Lemma blind_redraw : tooltip_blind redraw.
Proof.
  unfold redraw.
  apply blind_bind_get; [done|]. intros xr.
  apply blind_bind_get; [done|]. intros yr.
  apply blind_bind; [apply blind_mountRugs|]. intros _.
  apply blind_bind; [by apply blind_if_tooltip_emit2|]. intros _.
  apply blind_bind.
  { unfold mountPoints. apply blind_bind_get; [done|].
    intros [fs|sets]; [apply blind_throw|].
    apply blind_bind; [apply blind_mount_pointSets|]. intros ps.
    by apply blind_modify. }
  intros _. apply blind_bind.
  { unfold mountDelaunay.
    apply blind_bind; [by apply blind_modify|]. intros _.
    apply blind_bind_get; [done|]. intros d.
    apply blind_bind; [by apply blind_modify|]. intros _.
    by apply blind_emit. }
  intros _. apply blind_bind; [by apply blind_emit|]. intros _.
  apply blind_bind_get; [done|]. intros b. by apply blind_emit.
Qed.

Lemma blind_deliver e : tooltip_blind (deliver e).
Proof.
  destruct e as [[d|]|arg|]; simpl.
  - apply blind_bind; [by apply blind_modify|]. intros _. apply blind_redraw.
  - apply blind_bind; [apply blind_ret|]. intros _. apply blind_redraw.
  - apply blind_bind_get; [done|]. intros [d|]; simpl;
      [apply blind_invoke|apply blind_ret].
  - apply blind_bind_get; [done|]. intros [d|]; simpl;
      [apply blind_invoke|apply blind_ret].
Qed.

Lemma blind_outcomes es c :
  outcomes_after es (with_tooltip None c) = outcomes_after es c.
Proof.
  revert c. induction es as [|e es IH]; intros c; [done|].
  rewrite !outcomes_after_cons, blind_deliver.
  change (chart_of (without_tooltip (deliver e c)))
    with (with_tooltip None (chart_of (deliver e c))).
  by rewrite IH.
Qed.

Lemma with_tooltip_None_same c : tooltip c = None -> with_tooltip None c = c.
Proof. destruct c. simpl. by intros ->. Qed.

Lemma no_tooltip_run es c :
  tooltip c = None ->
  tooltip (state_after es c) = None ∧
  Forall (λ e, is_tooltip_call e = false) (trace_after es c).
Proof.
  revert c. induction es as [|e es IH]; intros c Hc.
  - split; [done|constructor].
  - rewrite state_after_cons, trace_after_cons.
    destruct (keeps_deliver (λ c, tooltip c = None)
                (λ e, is_tooltip_call e = false)) with (e := e) (c := c)
      as (H1 & H2 & _); auto.
    destruct (IH _ H1) as [H3 H4]. split; [done|]. by apply Forall_app.
Qed.

(** C6.  On a chart without a tooltip, through any sequence of redraws,
    [onPoint] and [onLeave] events, no call on the tooltip is made, the
    chart stays without a tooltip, and an event ends in an exception
    exactly when it does on the same chart with a tooltip [t]: no failure
    comes from the tooltip being absent. *)
Theorem no_tooltip_no_tooltip_calls es c t :
  tooltip c = None ->
  List.filter is_tooltip_call (trace_after es c) = [] ∧
  tooltip (state_after es c) = None ∧
  outcomes_after es c = outcomes_after es (with_tooltip (Some t) c).
Proof.
  intros Hc. destruct (no_tooltip_run es c Hc) as [H1 H2]. repeat split.
  - induction H2 as [|e l He _ IH]; [done|]. simpl. by rewrite He.
  - done.
  - rewrite <- (with_tooltip_None_same c Hc) at 1.
    assert (with_tooltip None c = with_tooltip None (with_tooltip (Some t) c))
      as -> by done.
    apply blind_outcomes.
Qed.

Lemma no_tooltip_no_tooltip_calls_witness :
  let es := [PointerOn [hit_at (Some 0) 1 10 10]; PointerOn [hit_at (Some 1) 0 0 10];
             Redraw None; PointerLeave; PointerOn [hit_at (Some 4) 4 0 0];
             PointerLeave] in
  List.filter is_tooltip_call (trace_after es (sample_chart None)) = [] ∧
  tooltip (state_after es (sample_chart None)) = None ∧
  outcomes_after es (sample_chart None) =
    outcomes_after es (with_tooltip (Some TooltipHandle) (sample_chart None)).
Proof.
  intros es. apply (no_tooltip_no_tooltip_calls es (sample_chart None)).
  reflexivity.
Defined.

(** ** [redraw], step by step *)

Lemma mountRugs_run c :
  mountRugs (xRugParams c) (yRugParams c) c = (rugs_mounted c, rug_calls c, Ok ()).
Proof.
  unfold mountRugs, rugs_mounted, rug_calls. rewrite run_bind.
  destruct (truthy (xRugParams c)), (truthy (yRugParams c)); reflexivity.
Qed.

Lemma mount_pointSet_run n ds c :
  ∃ pts r,
    mount_pointSet n ds c = (c, map PointMountTo pts, r) ∧
    (∀ row, r = Ok row -> pts = row) ∧
    (∀ f, sizeAccessor c = Some f ->
          r = Ok (map (fresh_point (colors c) f n) ds)).
Proof.
  induction ds as [|d ds IH]; simpl.
  - exists [], (Ok []). split; [done|]. split; [by intros ? [= <-]|done].
  - rewrite !run_bind_get. destruct (sizeAccessor c) as [f|] eqn:Hf.
    + destruct IH as (pts & r & Hrun & Hrow & Hok).
      rewrite run_bind_emit, run_bind, Hrun.
      destruct r as [rest|e]; unfold chart_of, trace_of, outcome_of; simpl;
        rewrite ?app_nil_r.
      * eexists (_ :: pts), _. split; [reflexivity|]. split.
        -- intros ? [= <-]. by rewrite (Hrow rest).
        -- intros f' [= <-]. specialize (Hok f eq_refl). by injection Hok as ->.
      * eexists (_ :: pts), _. split; [reflexivity|]. split; [done|].
        intros f' [= <-]. by specialize (Hok f eq_refl).
    + exists [], (Throw (TypeError "this.sizeAccessor is not a function")).
      repeat split; done.
Qed.

Lemma mount_pointSets_run n sets c :
  ∃ pts r,
    mount_pointSets n sets c = (c, map PointMountTo pts, r) ∧
    (∀ rows, r = Ok rows -> pts = concat rows) ∧
    (∀ f, forallb is_arr sets = true -> sizeAccessor c = Some f ->
          r = Ok (registry_from (colors c) f n sets)).
Proof.
  revert n. induction sets as [|[fs|ds] sets IH]; intros n; simpl.
  - exists [], (Ok []). split; [done|]. split; [by intros ? [= <-]|done].
  - exists [], (Throw (TypeError "pointSet.map is not a function")).
    repeat split; done.
  - destruct (mount_pointSet_run n ds c) as (pts1 & r1 & Hrun1 & Hrow1 & Hok1).
    destruct (IH (S n)) as (pts2 & r2 & Hrun2 & Hrow2 & Hok2).
    rewrite run_bind, Hrun1. destruct r1 as [row|e].
    + rewrite run_bind, Hrun2. destruct r2 as [rows|e];
        unfold mret, M_ret; simpl.
      * exists (pts1 ++ pts2), (Ok (row :: rows)). rewrite app_nil_r, map_app.
        split; [done|]. split.
        -- intros ? [= <-]. simpl. by rewrite (Hrow1 row), (Hrow2 rows).
        -- intros f Hall Hf. specialize (Hok1 f Hf). specialize (Hok2 f Hall Hf).
           congruence.
      * exists (pts1 ++ pts2), (Throw e). rewrite map_app.
        split; [done|]. split; [done|].
        intros f Hall Hf. by specialize (Hok2 f Hall Hf).
    + exists pts1, (Throw e). split; [done|]. split; [done|].
      intros f _ Hf. by specialize (Hok1 f Hf).
Qed.

(** The outcome of [mountPoints]: the handles mounted so far, and the new
    registry when no exception stopped it. *)
Lemma mountPoints_run c :
  ∃ pts,
    (∃ e, mountPoints c = (c, map PointMountTo pts, Throw e) ∧
          ∀ sets f, data c = JArr sets -> forallb is_arr sets = true ->
                    sizeAccessor c = Some f -> False) ∨
    (∃ ps, mountPoints c = (with_points ps c, map PointMountTo pts, Ok ()) ∧
           pts = concat ps ∧
           ∀ sets f, data c = JArr sets -> forallb is_arr sets = true ->
                     sizeAccessor c = Some f ->
                     ps = registry_from (colors c) f 0 sets).
Proof.
  unfold mountPoints. destruct (data c) as [fs|sets] eqn:Hd.
  - exists []. left. eexists. rewrite run_bind_get, Hd. split; [done|].
    intros ???; done.
  - destruct (mount_pointSets_run 0 sets c) as (pts & r & Hrun & Hrows & Hok).
    exists pts. rewrite run_bind_get, Hd, run_bind, Hrun.
    destruct r as [ps|e].
    + right. exists ps. unfold modify. simpl. rewrite app_nil_r.
      split; [done|]. split; [by apply Hrows|].
      intros sets' f [= <-] Hall Hf. specialize (Hok f Hall Hf). congruence.
    + left. exists e. split; [done|].
      intros sets' f [= <-] Hall Hf. by specialize (Hok f Hall Hf).
Qed.

Lemma redraw_run c :
  redraw c =
    match mountPoints (rugs_mounted c) with
    | (c2, t2, Ok _) =>
        (with_delaunay (Some (index_over (data c2)))
           (with_delaunayPoint
              (Some (generatePoint None None (Some 3) None None)) c2),
         rug_calls c ++ tooltip_reset c ++ t2 ++
           [DelaunayMountTo (index_over (data c2)); MountLegend circle;
            MountBrush (brush c2)],
         Ok ())
    | (c2, t2, Throw e) =>
        (c2, rug_calls c ++ tooltip_reset c ++ t2, Throw e)
    end.
Proof.
  unfold redraw. rewrite !run_bind_get.
  rewrite (run_bind_ok _ _ _ _ _ _ (mountRugs_run c)).
  assert (if_tooltip (emit (TooltipUpdate (LegendObjectArg circle));; emit TooltipHide)
            (rugs_mounted c) = (rugs_mounted c, tooltip_reset c, Ok ())) as Htt.
  { rewrite if_tooltip_run. unfold tooltip_reset.
    assert (tooltip (rugs_mounted c) = tooltip c) as ->.
    { unfold rugs_mounted. by destruct (truthy _), (truthy _). }
    by destruct (tooltip c). }
  rewrite (run_bind_ok _ _ _ _ _ _ Htt).
  rewrite run_bind.
  destruct (mountPoints (rugs_mounted c)) as [[c2 t2] [[]|e]];
    unfold chart_of, trace_of, outcome_of; simpl; [|done].
  done.
Qed.

Lemma rugs_mounted_fields c :
  data (rugs_mounted c) = data c ∧ colors (rugs_mounted c) = colors c ∧
  brush (rugs_mounted c) = brush c ∧
  sizeAccessor (rugs_mounted c) = sizeAccessor c ∧
  points (rugs_mounted c) = points c ∧
  delaunay (rugs_mounted c) = delaunay c.
Proof. unfold rugs_mounted. by destruct (truthy _), (truthy _). Qed.

Lemma redraw_calls c :
  ∃ mounted,
    trace_of (redraw c) =
      rug_calls c ++ tooltip_reset c ++ map PointMountTo mounted ++
      (if throws (redraw c) then []
       else [DelaunayMountTo (index_over (data c)); MountLegend circle;
             MountBrush (brush c)]).
Proof.
  destruct (rugs_mounted_fields c) as (Hd & _ & Hb & _).
  rewrite redraw_run.
  destruct (mountPoints_run (rugs_mounted c))
    as [pts [(e & -> & _)|(ps & -> & _ & _)]]; exists pts;
    unfold throws, chart_of, trace_of, outcome_of; simpl.
  - by rewrite app_nil_r.
  - by rewrite Hd, Hb.
Qed.

(** C9.  Every call of [redraw()] makes its calls in this order: the rugs
    that are configured (x before y), the tooltip type when a tooltip is
    present, the point handles of the registry, the Delaunay instance,
    the legend, the brush.  When a step throws (only mounting the points
    can), the steps after it are not made.  When none throws, the handles
    mounted are those of the new registry, and the Delaunay instance is
    built over the data the registry was built from, in nested mode, with
    the handlers of this chart.  For grouped data, with the size accessor
    set, no step throws and the registry has one handle per record, in
    the order of the data. *)
Theorem redraw_order c :
  ∃ mounted,
    trace_of (redraw c) =
      rug_calls c ++ tooltip_reset c ++ map PointMountTo mounted ++
      (if throws (redraw c) then []
       else [DelaunayMountTo (index_over (data c)); MountLegend circle;
             MountBrush (brush c)]) ∧
    (throws (redraw c) = false ->
       mounted = concat (points (chart_of (redraw c))) ∧
       delaunay (chart_of (redraw c)) = Some (index_over (data c)) ∧
       data (chart_of (redraw c)) = data c) ∧
    (∀ sets f, data c = JArr sets -> forallb is_arr sets = true ->
               sizeAccessor c = Some f ->
       throws (redraw c) = false ∧
       points (chart_of (redraw c)) = registry_from (colors c) f 0 sets).
Proof.
  destruct (rugs_mounted_fields c) as (Hd & Hcol & Hb & Hsz & _ & _).
  rewrite redraw_run.
  destruct (mountPoints_run (rugs_mounted c))
    as [pts [(e & -> & Hbad)|(ps & -> & Hpts & Hreg)]]; exists pts;
    unfold throws, chart_of, trace_of, outcome_of; simpl.
  - split; [by rewrite app_nil_r|]. split; [done|].
    intros sets f Hsets Hall Hf. destruct (Hbad sets f); congruence.
  - rewrite Hd, Hb. split; [done|]. split; [done|].
    intros sets f Hsets Hall Hf. split; [done|].
    rewrite <- Hcol. apply Hreg; congruence.
Qed.

Lemma redraw_order_witness :
  let c := chart_of (new_ScatterChart flat_args) in
  throws (redraw c) = false ∧
  points (chart_of (redraw c)) =
    [[fresh_point ["red"] (makeAccessorFunction (FieldName "x")) 0 (rec_xy 1 2);
      fresh_point ["red"] (makeAccessorFunction (FieldName "x")) 0 (rec_xy 3 4)]].
Proof.
  intros c. destruct (redraw_order c) as (mounted & _ & _ & H).
  apply (H [JArr [rec_xy 1 2; rec_xy 3 4]]
           (makeAccessorFunction (FieldName "x"))); reflexivity.
Defined.

(** ** Normalization *)

Lemma normalizeData_run c :
  normalizeData c =
    (if isArrayOfObjects c then with_data (JArr [data c]) c else c,
     [NormalizeDataCall], Ok ()).
Proof. unfold normalizeData. rewrite run_bind_emit, run_bind_get. by destruct (isArrayOfObjects c). Qed.

(** The chart on which the constructor calls [redraw()]. *)
Lemma constructor_run a :
  ∃ c1,
    new_ScatterChart a =
      (chart_of (redraw c1), NormalizeDataCall :: trace_of (redraw c1),
       outcome_of (redraw c1)) ∧
    data c1 = normalized (arg_data a).
Proof.
  unfold new_ScatterChart, constructor, AbstractChart_constructor.
  rewrite (run_bind_ok _ _ _ _ _ _ (normalizeData_run (allocate a))).
  rewrite run_bind_get, run_bind_modify, run_bind_get, run_bind_modify,
    run_bind_modify.
  eexists. split; [reflexivity|].
  unfold normalized. simpl. by destruct (is_flat (arg_data a)).
Qed.

Lemma tooltip_call_not_normalize e :
  is_tooltip_call e = true -> e ≠ NormalizeDataCall.
Proof. by intros H ->. Qed.

Lemma no_normalize_redraw c : NormalizeDataCall ∉ trace_of (redraw c).
Proof.
  destruct (keeps_redraw (λ _, True) (λ e, e ≠ NormalizeDataCall)) with (c := c)
    as (_ & H & _); auto using tooltip_call_not_normalize.
  intros Hin. by apply (proj1 (Forall_forall _ _) H _ Hin).
Qed.

Lemma no_normalize_run es c : NormalizeDataCall ∉ trace_after es c.
Proof.
  revert c. induction es as [|e es IH]; intros c.
  - apply not_elem_of_nil.
  - rewrite trace_after_cons. apply not_elem_of_app. split; [|apply IH].
    destruct (keeps_deliver (λ _, True) (λ e, e ≠ NormalizeDataCall))
      with (e := e) (c := c) as (_ & H & _);
      auto using tooltip_call_not_normalize.
    intros Hin. by apply (proj1 (Forall_forall _ _) H _ Hin).
Qed.

Lemma consumers_of_redraw c e :
  e ∈ trace_of (redraw c) ->
  match e with
  | RugMountTo r => rug_data r = data c
  | DelaunayMountTo dl => dl_points dl = data c
  | _ => True
  end.
Proof.
  destruct (redraw_calls c) as (mounted & ->).
  rewrite !elem_of_app. intros [H|[H|[H|H]]].
  - unfold rug_calls in H. apply elem_of_app in H as [H|H].
    + destruct (truthy _); [|by apply elem_of_nil in H].
      by apply list_elem_of_singleton in H as ->.
    + destruct (truthy _); [|by apply elem_of_nil in H].
      by apply list_elem_of_singleton in H as ->.
  - unfold tooltip_reset in H. destruct (tooltip c); simpl in H.
    + apply elem_of_cons in H as [->|H]; [done|].
      by apply list_elem_of_singleton in H as ->.
    + by apply elem_of_nil in H.
  - apply list_elem_of_fmap in H as (p & -> & _). done.
  - destruct (throws _); [by apply elem_of_nil in H|].
    apply elem_of_cons in H as [->|H]; [done|].
    apply elem_of_cons in H as [->|H]; [done|].
    by apply list_elem_of_singleton in H as ->.
Qed.

(** C7.  [normalizeData] wraps the data into a one-element array when the
    chart was given a flat sequence of records ([isArrayOfObjects]) and
    leaves the chart as it is otherwise.  A new chart calls it once, before
    anything else: the data of the constructed chart is the normalized
    input (wrapped when flat, unchanged when not), every rug and the
    Delaunay instance are built over the normalized data, and no later
    redraw or pointer event calls it again. *)
Theorem data_normalized_once a :
  (∀ c : ScatterChart, isArrayOfObjects c = true ->
        data (chart_of (normalizeData c)) = JArr [data c]) ∧
  (∀ c : ScatterChart, isArrayOfObjects c = false ->
        chart_of (normalizeData c) = c) ∧
  (is_flat (arg_data a) = true ->
     data (chart_of (new_ScatterChart a)) = JArr [arg_data a]) ∧
  (is_flat (arg_data a) = false ->
     data (chart_of (new_ScatterChart a)) = arg_data a) ∧
  (∃ t, trace_of (new_ScatterChart a) = NormalizeDataCall :: t ∧
        (NormalizeDataCall ∉ t) ∧
        (∀ r, RugMountTo r ∈ t -> rug_data r = normalized (arg_data a)) ∧
        (∀ dl, DelaunayMountTo dl ∈ t -> dl_points dl = normalized (arg_data a))) ∧
  (∀ es, NormalizeDataCall ∉ trace_after es (chart_of (new_ScatterChart a))).
Proof.
  destruct (constructor_run a) as (c1 & Hrun & Hd).
  assert (data (chart_of (new_ScatterChart a)) = normalized (arg_data a)) as Hdata.
  { rewrite Hrun. unfold chart_of at 1. simpl. rewrite <- Hd.
    destruct (keeps_redraw (λ c, data c = data c1) (λ _, True)) with (c := c1)
      as (H & _); auto. }
  split; [|split; [|split; [|split; [|split]]]].
  - intros c Hc. rewrite normalizeData_run, Hc. done.
  - intros c Hc. rewrite normalizeData_run, Hc. done.
  - intros Hf. rewrite Hdata. unfold normalized. by rewrite Hf.
  - intros Hf. rewrite Hdata. unfold normalized. by rewrite Hf.
  - exists (trace_of (redraw c1)). rewrite Hrun. split; [done|].
    split; [apply no_normalize_redraw|]. rewrite <- Hd. split.
    + intros r Hr. apply (consumers_of_redraw c1 _ Hr).
    + intros dl Hdl. apply (consumers_of_redraw c1 _ Hdl).
  - intros es. apply no_normalize_run.
Qed.

Lemma data_normalized_once_witness :
  data (chart_of (new_ScatterChart flat_args)) = JArr [arg_data flat_args] ∧
  data (chart_of (new_ScatterChart (sample_args None))) = two_series.
Proof.
  split.
  - apply (data_normalized_once flat_args). reflexivity.
  - apply (data_normalized_once (sample_args None)). reflexivity.
Defined.

(** ** A redraw while a point is highlighted *)

(** C2 fails on the code: [redraw] leaves [_activePoint] as it was, and
    the setter uses it on the registry the redraw mounted.  Point (0,1) is
    highlighted and the data is replaced by one series of one record: the
    next [onLeave] and the next [onPoint] each end in a TypeError on
    [this.points[0][1]] and leave the chart as it was, so the state never
    leaves (0,1).  With new data of the same shape, the next [onLeave]
    restyles the new handle at (0,1). *)
Theorem stale_activePoint_after_redraw :
  _activePoint chart_redrawn_smaller = {| i := 0; j := 1 |} ∧
  point_at (points chart_redrawn_smaller) {| i := 0; j := 1 |} = None ∧
  throws (deliver PointerLeave chart_redrawn_smaller) = true ∧
  chart_of (deliver PointerLeave chart_redrawn_smaller) = chart_redrawn_smaller ∧
  throws (deliver (PointerOn [hit_at (Some 0) 0 5 5]) chart_redrawn_smaller) = true ∧
  chart_of (deliver (PointerOn [hit_at (Some 0) 0 5 5]) chart_redrawn_smaller) =
    chart_redrawn_smaller ∧
  _activePoint chart_redrawn_same_shape = {| i := 0; j := 1 |} ∧
  trace_of (deliver PointerLeave chart_redrawn_same_shape) =
    [PointUpdate 0 1 dim; Assign_activePoint Idle].
Proof. repeat split; reflexivity. Qed.

(** * Further properties *)

(** ** What a style update leaves alone *)

Lemma point_at_restyled_other ps a fo b :
  b ≠ a -> point_at (restyled a fo ps) b = point_at ps b.
Proof.
  intros Hne. destruct (point_at ps a) as [p|] eqn:Hp.
  - rewrite (point_at_restyled_Some _ _ _ p) by done. by rewrite decide_False.
  - by rewrite restyled_None.
Qed.

(** Any reading of a handle that ignores the fill opacity reads the same
    registry after a style update. *)
Lemma fmap_restyled {B} (g : Point -> B) ps a fo :
  (∀ p, g (Point_update fo p) = g p) ->
  map (map g) (restyled a fo ps) = map (map g) ps.
Proof.
  intros Hg. destruct (point_at ps a) as [p|] eqn:Hp.
  - destruct (restyled_Some _ _ fo _ Hp) as (row & Hr & Hq & ->).
    apply at_index_Some in Hr as [_ Hr]. apply at_index_Some in Hq as [_ Hq].
    change (map (map g)) with (fmap (M:=list) (fmap (M:=list) g)).
    rewrite list_fmap_insert. apply list_insert_id.
    rewrite list_lookup_fmap, Hr. simpl. f_equal.
    rewrite list_fmap_insert. symmetry. apply list_insert_id.
    rewrite list_lookup_fmap, Hq. simpl. by rewrite Hg.
  - by rewrite restyled_None.
Qed.

Lemma points_deset c :
  points (deset c) = points c ∨
  points (deset c) = restyled (_activePoint c) dim (points c).
Proof. unfold deset. destruct (is_set _); auto. Qed.

Lemma fmap_points_deset {B} (g : Point -> B) c :
  (∀ fo p, g (Point_update fo p) = g p) ->
  map (map g) (points (deset c)) = map (map g) (points c).
Proof.
  intros Hg. destruct (points_deset c) as [-> | ->]; [done|].
  by apply fmap_restyled.
Qed.

Lemma point_at_deset_other c b :
  b ≠ _activePoint c -> point_at (points (deset c)) b = point_at (points c) b.
Proof.
  intros Hne. destruct (points_deset c) as [-> | ->]; [done|].
  by apply point_at_restyled_other.
Qed.

(** The registry after a call of the setter, in each of its four cases. *)
Lemma points_set_activePoint c a :
  points (chart_of (set_activePoint a c)) = points c ∨
  points (chart_of (set_activePoint a c)) = points (deset c) ∨
  points (chart_of (set_activePoint a c)) =
    restyled a emphasized (points (deset c)).
Proof.
  destruct (set_activePoint_cases c a)
    as [(_ & e & ->)|[(_ & _ & ->)|[(_ & _ & _ & e & ->)|(_ & q & _ & ->)]]];
    unfold chart_of; simpl; auto.
Qed.

Lemma fmap_points_set_activePoint {B} (g : Point -> B) c a :
  (∀ fo p, g (Point_update fo p) = g p) ->
  map (map g) (points (chart_of (set_activePoint a c))) = map (map g) (points c).
Proof.
  intros Hg.
  destruct (points_set_activePoint c a) as [-> | [-> | ->]]; [done| |].
  - by apply fmap_points_deset.
  - rewrite fmap_restyled by done. by apply fmap_points_deset.
Qed.

(** X5.  A call of the setter, whether it ends normally or throws,
    changes no handle other than the previously active one and the one it
    is given, and changes nothing but fill opacities: the registry keeps
    its shape and every handle keeps its record, color, radius and stroke
    width. *)
Theorem setter_touches_two_handles c a :
  (∀ b, b ≠ _activePoint c -> b ≠ a ->
        point_at (points (chart_of (set_activePoint a c))) b =
        point_at (points c) b) ∧
  map (map bare) (points (chart_of (set_activePoint a c))) =
    map (map bare) (points c).
Proof.
  split.
  - intros b Hprev Ha.
    destruct (points_set_activePoint c a) as [-> | [-> | ->]]; [done| |].
    + by apply point_at_deset_other.
    + rewrite point_at_restyled_other by done. by apply point_at_deset_other.
  - by apply fmap_points_set_activePoint.
Qed.

(** ** Pointer events *)

Lemma filter_mount_deset_trace c : List.filter is_mount (deset_trace c) = [].
Proof. unfold deset_trace. by destruct (is_set _). Qed.

Lemma set_activePoint_no_mount c a :
  List.filter is_mount (trace_of (set_activePoint a c)) = [].
Proof.
  destruct (set_activePoint_cases c a)
    as [(_ & e & ->)|[(_ & _ & ->)|[(_ & _ & _ & e & ->)|(_ & q & _ & ->)]]];
    unfold trace_of; simpl; [done|..];
    by rewrite List.filter_app, filter_mount_deset_trace.
Qed.

Lemma invoke_no_mount cb arg c :
  List.filter is_mount (trace_of (invoke cb arg c)) = [].
Proof.
  destruct cb; simpl.
  - unfold onPointHandler. destruct arg as [|h rest]; [done|].
    rewrite run_bind.
    pose proof (set_activePoint_no_mount c
      {| i := default 0 (arrayIndex h); j := index h |}) as H.
    destruct (set_activePoint _ c) as [[c1 t1] [[]|e]]; [|done].
    rewrite if_tooltip_emit. unfold trace_of in *. simpl in *.
    rewrite List.filter_app, H. by destruct (tooltip c1).
  - unfold onLeaveHandler. rewrite run_bind.
    pose proof (set_activePoint_no_mount c {| i := -1; j := -1 |}) as H.
    destruct (set_activePoint _ c) as [[c1 t1] [[]|e]]; [|done].
    rewrite if_tooltip_emit. unfold trace_of in *. simpl in *.
    rewrite List.filter_app, H. by destruct (tooltip c1).
Qed.

Lemma fmap_points_invoke {B} (g : Point -> B) cb arg c :
  (∀ fo p, g (Point_update fo p) = g p) ->
  map (map g) (points (chart_of (invoke cb arg c))) = map (map g) (points c).
Proof.
  intros Hg. destruct cb; simpl.
  - destruct arg as [|h rest]; [done|]. rewrite chart_onPointHandler.
    by apply fmap_points_set_activePoint.
  - rewrite chart_onLeaveHandler. by apply fmap_points_set_activePoint.
Qed.

Lemma same_mounting_refl c : same_mounting c c.
Proof. unfold same_mounting. by destruct c. Qed.

Lemma same_mounting_invoke cb arg c0 c :
  same_mounting c c0 -> same_mounting (chart_of (invoke cb arg c)) c0.
Proof.
  intros Hc.
  apply (keeps_invoke (λ x, same_mounting x c0) (λ _, True)); auto.
  - intros x ps Hx. unfold same_mounting in *. rewrite <- Hx. by destruct c0.
  - intros x a Hx. unfold same_mounting in *. rewrite <- Hx. by destruct c0.
Qed.

(** What one pointer event does to the chart [c0] that some earlier
    pointer events have brought to [c]. *)
Lemma pointer_event_step e c0 c :
  is_pointer_event e = true ->
  same_mounting c c0 ->
  same_mounting (chart_of (deliver e c)) c0 ∧
  map (map bare) (points (chart_of (deliver e c))) = map (map bare) (points c) ∧
  List.filter is_mount (trace_of (deliver e c)) = [].
Proof.
  intros He Hc. destruct e as [d|arg|]; [done| |]; simpl;
    rewrite run_bind_get; destruct (delaunay c) as [d|]; simpl; try done.
  - split; [by apply same_mounting_invoke|].
    split; [by apply fmap_points_invoke|apply invoke_no_mount].
  - split; [by apply same_mounting_invoke|].
    split; [by apply fmap_points_invoke|apply invoke_no_mount].
Qed.

(** X6.  Pointer events only restyle.  After any sequence of [onPoint]
    and [onLeave] events, with any payloads, every field of the chart
    other than [points] and [_activePoint] is as before (data, colors,
    tooltip, Delaunay instance, rugs, size accessor), the registry has the
    same shape and every handle the same record, color, radius and stroke
    width, and nothing was mounted. *)
Theorem pointer_events_only_restyle es c :
  forallb is_pointer_event es = true ->
  same_mounting (state_after es c) c ∧
  map (map bare) (points (state_after es c)) = map (map bare) (points c) ∧
  List.filter is_mount (trace_after es c) = [].
Proof.
  intros Hes.
  assert (∀ c1, same_mounting c1 c ->
            same_mounting (state_after es c1) c ∧
            map (map bare) (points (state_after es c1)) = map (map bare) (points c1) ∧
            List.filter is_mount (trace_after es c1) = []) as H.
  { induction es as [|e es IH]; intros c1 Hc1; [done|].
    simpl in Hes. apply andb_true_iff in Hes as [He Hes].
    destruct (pointer_event_step e c c1 He Hc1) as (H1 & H2 & H3).
    destruct (IH Hes _ H1) as (H4 & H5 & H6).
    rewrite state_after_cons, trace_after_cons, List.filter_app, H3, H6.
    split; [done|]. split; [congruence|done]. }
  apply H, same_mounting_refl.
Qed.

Lemma pointer_events_only_restyle_witness :
  let es := [PointerOn [hit_at (Some 0) 1 10 10]; PointerOn [hit_at (Some 9) 9 0 0];
             PointerLeave] in
  let c := sample_chart (Some TooltipHandle) in
  same_mounting (state_after es c) c ∧
  map (map bare) (points (state_after es c)) = map (map bare) (points c) ∧
  List.filter is_mount (trace_after es c) = [].
Proof.
  intros es c. apply (pointer_events_only_restyle es c). reflexivity.
Defined.

(** X7.  Highlighting and leaving is a round trip.  On a chart whose
    active point is (-1,-1), an [onPoint] event for a position of the
    registry whose handle is dim, followed by an [onLeave] event, ends
    normally both times and gives back the chart object as it was. *)
Theorem highlight_then_leave_restores c h rest p :
  _activePoint c = Idle ->
  point_at (points c) (target h) = Some p ->
  fillOpacity p = Some dim ->
  outcome_of (onPointHandler (h :: rest) c) = Ok () ∧
  outcome_of (onLeaveHandler (chart_of (onPointHandler (h :: rest) c))) = Ok () ∧
  chart_of (onLeaveHandler (chart_of (onPointHandler (h :: rest) c))) = c.
Proof.
  intros Hidle Hp Hdim.
  assert (can_deset c = true) as Hc.
  { unfold can_deset. by rewrite Hidle. }
  assert (deset c = c) as Hd by (unfold deset; by rewrite Hidle).
  assert (deset_trace c = []) as Ht by (unfold deset_trace; by rewrite Hidle).
  assert (point_at (points (deset c)) (target h) = Some p) as Hp' by (by rewrite Hd).
  set (c1 := with_points (restyled (target h) emphasized (points c))
               (with_activePoint (target h) c)).
  assert (onPointHandler (h :: rest) c =
            (c1, [Assign_activePoint (target h);
                  PointUpdate (i (target h)) (j (target h)) emphasized] ++
                 from_option (λ _, [TooltipUpdate (DataArg [h])]) [] (tooltip c),
             Ok ())) as Hon.
  { unfold onPointHandler. fold (target h).
    rewrite (run_bind_ok _ _ _ _ _ _ (set_activePoint_in_range c _ _ Hc Hp')).
    rewrite if_tooltip_emit, Hd, Ht. reflexivity. }
  rewrite Hon. unfold chart_of, outcome_of. simpl.
  assert (point_at (points c1) (_activePoint c1) = Some (Point_update emphasized p))
    as Hp1.
  { unfold c1. simpl. rewrite (point_at_restyled_Some _ _ _ p) by done.
    by rewrite decide_True. }
  rewrite (onLeaveHandler_run c1 (can_deset_in_range c1 _ Hp1)).
  simpl. split; [done|]. split; [done|].
  unfold deset. rewrite (point_at_is_set _ _ _ Hp1). unfold c1. simpl.
  rewrite (restyled_twice _ _ _ _ p), (restyled_same _ _ _ p) by done.
  rewrite <- Hidle. by destruct c.
Qed.

Lemma highlight_then_leave_restores_witness :
  let c := sample_chart (Some TooltipHandle) in
  let h := hit_at (Some 1) 0 0 10 in
  outcome_of (onPointHandler [h] c) = Ok () ∧
  outcome_of (onLeaveHandler (chart_of (onPointHandler [h] c))) = Ok () ∧
  chart_of (onLeaveHandler (chart_of (onPointHandler [h] c))) = c.
Proof.
  intros c h.
  apply (highlight_then_leave_restores c h []
           (generatePoint (Some (rec_xy 0 10)) (Some "blue") (Some 3)
              (Some dim) (Some 1))); reflexivity.
Defined.

(** ** An active point that is not in the registry *)

Lemma stale_can_deset c :
  is_set (_activePoint c) = true ->
  point_at (points c) (_activePoint c) = None ->
  can_deset c = false.
Proof.
  intros Hs Hn. unfold can_deset. by rewrite Hs, Hn.
Qed.

Lemma stale_invoke cb arg c :
  can_deset c = false ->
  ∃ e, invoke cb arg c = (c, [], Throw e).
Proof.
  intros Hc. destruct cb; simpl.
  - destruct arg as [|h rest]; [by eexists|]. unfold onPointHandler.
    destruct (set_activePoint_stale c
      {| i := default 0 (arrayIndex h); j := index h |} Hc) as [e He].
    exists e. by rewrite (run_bind_throw _ _ _ _ _ _ He).
  - unfold onLeaveHandler.
    destruct (set_activePoint_stale c {| i := -1; j := -1 |} Hc) as [e He].
    exists e. by rewrite (run_bind_throw _ _ _ _ _ _ He).
Qed.

Lemma stale_deliver e c :
  can_deset c = false -> is_pointer_event e = true ->
  chart_of (deliver e c) = c ∧ trace_of (deliver e c) = [] ∧
  (is_Some (delaunay c) -> is_throw (outcome_of (deliver e c)) = true).
Proof.
  intros Hc He. destruct e as [d|arg|]; [done| |]; simpl;
    rewrite run_bind_get; destruct (delaunay c) as [d|]; simpl.
  - destruct (stale_invoke (onPoint d) arg c Hc) as [e ->]. done.
  - repeat split; done.
  - destruct (stale_invoke (onLeave d) [] c Hc) as [e ->]. done.
  - repeat split; done.
Qed.

(** X8.  Once the active point has no -1 and is not a position of the
    registry (after an [onPoint] event resolved outside the registry, or a
    redraw with smaller data), pointer events no longer do anything: each
    [onPoint] and [onLeave] event of any later sequence ends in an
    exception (when a Delaunay instance is mounted), makes no call, and
    leaves the chart, its active point included, as it was. *)
Theorem stale_activePoint_blocks_pointer_events es c :
  is_set (_activePoint c) = true ->
  point_at (points c) (_activePoint c) = None ->
  forallb is_pointer_event es = true ->
  state_after es c = c ∧
  trace_after es c = [] ∧
  (is_Some (delaunay c) -> forallb is_throw (outcomes_after es c) = true).
Proof.
  intros Hs Hn Hes. pose proof (stale_can_deset c Hs Hn) as Hc.
  induction es as [|e es IH]; [done|].
  simpl in Hes. apply andb_true_iff in Hes as [He Hes].
  destruct (stale_deliver e c Hc He) as (H1 & H2 & H3).
  destruct (IH Hes) as (H4 & H5 & H6).
  rewrite state_after_cons, trace_after_cons, outcomes_after_cons, H1, H2.
  split; [done|]. split; [done|]. intros Hd. simpl.
  by rewrite (H3 Hd), (H6 Hd).
Qed.

Lemma stale_activePoint_blocks_pointer_events_witness :
  let es := [PointerLeave; PointerOn [hit_at (Some 0) 0 0 0]; PointerLeave] in
  state_after es chart_desynchronized = chart_desynchronized ∧
  trace_after es chart_desynchronized = [] ∧
  (is_Some (delaunay chart_desynchronized) ->
   forallb is_throw (outcomes_after es chart_desynchronized) = true).
Proof.
  intros es.
  apply (stale_activePoint_blocks_pointer_events es chart_desynchronized);
    reflexivity.
Defined.

(** X9.  In every state the chart reaches from its construction, through
    redraws, [onPoint] and [onLeave] events with any payloads, runs in
    which a handler throws included, at most one handle of the registry is
    emphasized, and when one is, it is the handle at the active point. *)
Theorem at_most_one_emphasized a es :
  (count_emphasized (points (state_after es (chart_of (new_ScatterChart a)))) ≤ 1)%nat ∧
  (count_emphasized (points (state_after es (chart_of (new_ScatterChart a)))) = 1%nat ->
   ∃ p, point_at (points (state_after es (chart_of (new_ScatterChart a))))
          (_activePoint (state_after es (chart_of (new_ScatterChart a)))) = Some p ∧
        is_emphasized p = true).
Proof.
  pose proof (styled_run a es) as H. unfold styled, only_emphasized_at in H.
  set (c := state_after es (chart_of (new_ScatterChart a))) in *.
  destruct (point_at (points c) (_activePoint c)) as [p|].
  - destruct (is_emphasized p) eqn:E; rewrite H.
    + split; [lia|]. intros _. by exists p.
    + split; [lia|]. intros [=].
  - rewrite H. split; [lia|]. intros [=].
Qed.

(** ** Mounting the registry *)

Lemma mount_pointSet_frame n ds c c' :
  colors c = colors c' -> sizeAccessor c = sizeAccessor c' ->
  ∃ t r, mount_pointSet n ds c = (c, t, r) ∧ mount_pointSet n ds c' = (c', t, r).
Proof.
  intros Hcol Hsz. induction ds as [|d ds IH]; simpl.
  - by exists [], (Ok []).
  - rewrite !run_bind_get, <- Hcol, <- Hsz.
    destruct (sizeAccessor c) as [f|]; [|by eexists _, _].
    destruct IH as (t & r & H1 & H2).
    rewrite !run_bind_emit, !run_bind, H1, H2.
    destruct r as [rest|e]; by eexists _, _.
Qed.

Lemma mount_pointSets_frame n sets c c' :
  colors c = colors c' -> sizeAccessor c = sizeAccessor c' ->
  ∃ t r, mount_pointSets n sets c = (c, t, r) ∧ mount_pointSets n sets c' = (c', t, r).
Proof.
  intros Hcol Hsz. revert n.
  induction sets as [|[fs|ds] sets IH]; intros n; simpl.
  - by exists [], (Ok []).
  - by eexists _, _.
  - destruct (mount_pointSet_frame n ds c c' Hcol Hsz) as (t1 & r1 & H1 & H1').
    destruct (IH (S n)) as (t2 & r2 & H2 & H2').
    rewrite !run_bind, H1, H1'. destruct r1 as [row|e]; [|by eexists _, _].
    rewrite !run_bind, H2, H2'. destruct r2 as [rows|e]; by eexists _, _.
Qed.

(** [mountPoints] reads [data], [colors] and [sizeAccessor] and writes
    [points]: on two charts that agree on what it reads, it makes the same
    calls and ends the same way. *)
Lemma mountPoints_frame c c' :
  data c = data c' -> colors c = colors c' -> sizeAccessor c = sizeAccessor c' ->
  ∃ t,
    (∃ e, mountPoints c = (c, t, Throw e) ∧ mountPoints c' = (c', t, Throw e)) ∨
    (∃ ps, mountPoints c = (with_points ps c, t, Ok ()) ∧
           mountPoints c' = (with_points ps c', t, Ok ())).
Proof.
  intros Hd Hcol Hsz. unfold mountPoints. rewrite !run_bind_get, <- Hd.
  destruct (data c) as [fs|sets].
  - exists []. left. by eexists.
  - destruct (mount_pointSets_frame 0 sets c c' Hcol Hsz) as (t & r & H1 & H2).
    exists t. rewrite !run_bind, H1, H2. destruct r as [ps|e].
    + right. exists ps. unfold modify. simpl. by rewrite app_nil_r.
    + left. by exists e.
Qed.

Lemma mount_pointSets_Ok_grouped n sets c c' t rows :
  mount_pointSets n sets c = (c', t, Ok rows) -> forallb is_arr sets = true.
Proof.
  revert n c' t rows. induction sets as [|[fs|ds] sets IH];
    intros n c' t rows; simpl; [done|done|].
  destruct (mount_pointSet_run n ds c) as (pts1 & r1 & H1 & _).
  rewrite run_bind, H1. destruct r1 as [row|e]; [|done].
  destruct (mount_pointSets_run (S n) sets c) as (pts2 & r2 & H2 & _).
  pose proof (IH (S n)) as IH'. rewrite H2 in IH'.
  rewrite run_bind, H2. destruct r2 as [rows'|e]; [|done].
  intros _. by eapply IH'.
Qed.

(** [mountPoints] ends normally exactly on grouped data, when the size
    accessor is set. *)
Lemma mountPoints_grouped c f :
  sizeAccessor c = Some f ->
  if is_grouped (data c)
  then ∃ sets, data c = JArr sets ∧
         mountPoints c =
           (with_points (registry_from (colors c) f 0 sets) c,
            map PointMountTo (concat (registry_from (colors c) f 0 sets)), Ok ())
  else ∃ mounted e, mountPoints c = (c, map PointMountTo mounted, Throw e).
Proof.
  intros Hf. destruct (mountPoints_run c)
    as [pts [(e & Hrun & Hbad)|(ps & Hrun & Hpts & Hreg)]].
  - destruct (is_grouped (data c)) eqn:Hg; [|by eexists _, _].
    unfold is_grouped in Hg. destruct (data c) as [fs|sets] eqn:Hd; [done|].
    destruct (Hbad sets f eq_refl Hg Hf).
  - assert (is_grouped (data c) = true) as Hg.
    { unfold mountPoints in Hrun. rewrite run_bind_get in Hrun.
      unfold is_grouped. destruct (data c) as [fs|sets]; [done|].
      rewrite run_bind in Hrun.
      destruct (mount_pointSets 0 sets c) as [[c1 t1] [rows|e]] eqn:E; [|done].
      by eapply mount_pointSets_Ok_grouped. }
    rewrite Hg. unfold is_grouped in Hg.
    destruct (data c) as [fs|sets] eqn:Hd; [done|].
    exists sets. split; [done|].
    rewrite Hrun, Hpts. by rewrite (Hreg sets f eq_refl Hg Hf).
Qed.

Lemma redraw_grouped c f :
  is_grouped (data c) = true -> sizeAccessor c = Some f ->
  ∃ sets, data c = JArr sets ∧
    throws (redraw c) = false ∧
    points (chart_of (redraw c)) = registry_from (colors c) f 0 sets ∧
    _activePoint (chart_of (redraw c)) = _activePoint c.
Proof.
  intros Hg Hf.
  destruct (rugs_mounted_fields c) as (Hd & Hcol & _ & Hsz & _ & _).
  pose proof (mountPoints_grouped (rugs_mounted c) f) as H.
  rewrite Hd, Hg, Hcol, Hsz in H. destruct (H Hf) as (sets & Hsets & Hrun).
  exists sets. split; [done|]. rewrite redraw_run, Hrun.
  unfold throws, chart_of, outcome_of. simpl. repeat split.
  unfold rugs_mounted. by destruct (truthy _), (truthy _).
Qed.

(** ** The registry and the data have the same positions *)

Lemma registry_from_lookup cols f n sets k :
  registry_from cols f n sets !! k =
    (λ s, match s with
          | JArr ds => map (fresh_point cols f (n + k)) ds
          | JObj _ => []
          end) <$> sets !! k.
Proof.
  revert n k. induction sets as [|s sets IH]; intros n k; [done|].
  destruct k as [|k].
  - destruct s; simpl; by rewrite ?Nat.add_0_r.
  - destruct s; simpl; rewrite IH;
      by replace (S n + k)%nat with (n + S k)%nat by lia.
Qed.

Lemma point_at_registry_from cols f sets a :
  forallb is_arr sets = true ->
  point_at (registry_from cols f 0 sets) a =
    fresh_point cols f (Z.to_nat (i a)) <$> record_at (JArr sets) a.
Proof.
  intros Hall. unfold point_at, record_at. simpl.
  destruct (Z.ltb_spec (i a) 0) as [Hi|Hi].
  { by rewrite !at_index_neg. }
  rewrite !(at_index_nonneg _ (i a)) by done.
  rewrite registry_from_lookup.
  destruct (sets !! Z.to_nat (i a)) as [s|] eqn:Hs; [|done]. simpl.
  assert (is_arr s = true) as Harr.
  { apply (proj1 (forallb_forall _ _) Hall). apply list_elem_of_In.
    by eapply list_elem_of_lookup_2. }
  destruct s as [fs|ds]; [done|]. simpl.
  unfold at_index. destruct (j a <? 0); [done|].
  by rewrite list_lookup_fmap.
Qed.

Lemma count_emphasized_registry_from cols f n sets :
  count_emphasized (registry_from cols f n sets) = 0%nat.
Proof.
  revert n. induction sets as [|[fs|ds] sets IH]; intros n; simpl; [done|..].
  - apply count_emphasized_cons; [done|apply IH].
  - apply count_emphasized_cons; [|apply IH].
    induction ds as [|d ds IHd]; [done|]. simpl. exact IHd.
Qed.

(** X1.  After a redraw on grouped data (with the size accessor set),
    the registry has exactly the positions of the data: [points[i][j]]
    exists if and only if [data[i][j]] does, and it is the handle of that
    record, with color [colors[i]], the radius the size accessor gives,
    fill opacity 0.3 and stroke width 1.  Such a redraw does not throw. *)
Theorem redraw_registry_matches_data c f a :
  is_grouped (data c) = true ->
  sizeAccessor c = Some f ->
  throws (redraw c) = false ∧
  point_at (points (chart_of (redraw c))) a =
    fresh_point (colors c) f (Z.to_nat (i a)) <$> record_at (data c) a.
Proof.
  intros Hg Hf. destruct (redraw_grouped c f Hg Hf) as (sets & Hd & Ht & Hps & _).
  split; [done|]. rewrite Hps, Hd. apply point_at_registry_from.
  unfold is_grouped in Hg. by rewrite Hd in Hg.
Qed.

Lemma redraw_registry_matches_data_witness :
  let c := chart_on_00 None in
  throws (redraw c) = false ∧
  point_at (points (chart_of (redraw c))) {| i := 1; j := 0 |} =
    Some (generatePoint (Some (rec_xy 0 10)) (Some "blue") (Some 3)
            (Some dim) (Some 1)).
Proof.
  intros c.
  apply (redraw_registry_matches_data c (λ _, Some 3) {| i := 1; j := 0 |});
    reflexivity.
Defined.

(** X2.  The first highlight after a redraw.  After a redraw on grouped
    data of a chart with no active point, an [onPoint] event for any
    position of the data ends normally, makes that position the active
    point and emphasizes the handle of that record, and that handle is then
    the only one emphasized. *)
Theorem first_highlight_after_redraw c f h rest d :
  is_grouped (data c) = true ->
  sizeAccessor c = Some f ->
  is_set (_activePoint c) = false ->
  record_at (data c) (target h) = Some d ->
  outcome_of (onPointHandler (h :: rest) (chart_of (redraw c))) = Ok () ∧
  _activePoint (chart_of (onPointHandler (h :: rest) (chart_of (redraw c)))) =
    target h ∧
  point_at (points (chart_of (onPointHandler (h :: rest) (chart_of (redraw c)))))
    (target h) =
    Some (Point_update emphasized
            (fresh_point (colors c) f (Z.to_nat (i (target h))) d)) ∧
  count_emphasized
    (points (chart_of (onPointHandler (h :: rest) (chart_of (redraw c))))) = 1%nat.
Proof.
  intros Hg Hf Hidle Hd.
  destruct (redraw_grouped c f Hg Hf) as (sets & Hsets & _ & Hps & Hact).
  assert (point_at (points (chart_of (redraw c))) (target h) =
            Some (fresh_point (colors c) f (Z.to_nat (i (target h))) d)) as Hpt.
  { rewrite Hps, point_at_registry_from, <- Hsets, Hd; [done|].
    unfold is_grouped in Hg. by rewrite Hsets in Hg. }
  set (c1 := chart_of (redraw c)) in *.
  assert (is_set (_activePoint c1) = false) as Hidle1 by (by rewrite Hact).
  assert (can_deset c1 = true) as Hc.
  { unfold can_deset. by rewrite Hidle1. }
  assert (deset c1 = c1) as Hde by (unfold deset; by rewrite Hidle1).
  assert (point_at (points (deset c1)) (target h) =
            Some (fresh_point (colors c) f (Z.to_nat (i (target h))) d)) as Hpt'
    by (by rewrite Hde).
  assert (count_emphasized (points c1) = 0%nat) as H0.
  { rewrite Hps. apply count_emphasized_registry_from. }
  assert (∃ t, onPointHandler (h :: rest) c1 =
            (with_points (restyled (target h) emphasized (points c1))
               (with_activePoint (target h) c1), t, Ok ())) as [t ->].
  { unfold onPointHandler. fold (target h).
    rewrite (run_bind_ok _ _ _ _ _ _ (set_activePoint_in_range c1 _ _ Hc Hpt')).
    rewrite if_tooltip_emit, Hde. by eexists. }
  unfold chart_of, outcome_of. simpl.
  split; [done|]. split; [done|]. split.
  - rewrite (point_at_restyled_Some _ _ _ _ _ Hpt). by rewrite decide_True.
  - by apply (count_emphasize _ _ _ H0 Hpt).
Qed.

Lemma first_highlight_after_redraw_witness :
  let c := sample_chart None in
  let h := hit_at (Some 0) 1 10 10 in
  outcome_of (onPointHandler [h] (chart_of (redraw c))) = Ok () ∧
  _activePoint (chart_of (onPointHandler [h] (chart_of (redraw c)))) =
    {| i := 0; j := 1 |} ∧
  point_at (points (chart_of (onPointHandler [h] (chart_of (redraw c)))))
    {| i := 0; j := 1 |} =
    Some (generatePoint (Some (rec_xy 10 10)) (Some "red") (Some 3)
            (Some emphasized) (Some 1)) ∧
  count_emphasized
    (points (chart_of (onPointHandler [h] (chart_of (redraw c))))) = 1%nat.
Proof.
  intros c h.
  apply (first_highlight_after_redraw c (λ _, Some 3) h [] (rec_xy 10 10));
    reflexivity.
Defined.

(** ** A redraw that fails, a redraw that is repeated *)

Lemma filter_late_mount_prefix c mounted :
  List.filter is_late_mount
    (rug_calls c ++ tooltip_reset c ++ map PointMountTo mounted) = [].
Proof.
  rewrite !List.filter_app.
  assert (List.filter is_late_mount (rug_calls c) = []) as ->.
  { unfold rug_calls. by destruct (truthy _), (truthy _). }
  assert (List.filter is_late_mount (tooltip_reset c) = []) as ->.
  { unfold tooltip_reset. by destruct (tooltip c). }
  simpl. induction mounted as [|p l IH]; [done|]. exact IH.
Qed.

(** X3.  A redraw on data that is not an array of arrays (a single
    object, a flat sequence of records that was not normalized, series
    mixed with records) ends in a TypeError when the size accessor is set.
    The rugs that are configured have been remounted by then, and the
    handles of the series before the offending element have been mounted,
    but [points], the Delaunay instance and the active point are as they
    were, and neither the Delaunay instance nor the legend nor the brush is
    mounted. *)
Theorem redraw_on_ungrouped_data_throws c f :
  is_grouped (data c) = false ->
  sizeAccessor c = Some f ->
  throws (redraw c) = true ∧
  chart_of (redraw c) = rugs_mounted c ∧
  points (chart_of (redraw c)) = points c ∧
  delaunay (chart_of (redraw c)) = delaunay c ∧
  _activePoint (chart_of (redraw c)) = _activePoint c ∧
  List.filter is_late_mount (trace_of (redraw c)) = [].
Proof.
  intros Hg Hf.
  destruct (rugs_mounted_fields c) as (Hd & Hcol & _ & Hsz & Hps & Hdl).
  pose proof (mountPoints_grouped (rugs_mounted c) f) as H.
  rewrite Hd, Hg, Hsz in H. destruct (H Hf) as (mounted & e & Hrun).
  rewrite redraw_run, Hrun. unfold throws, chart_of, trace_of, outcome_of. simpl.
  split; [done|]. split; [done|]. split; [done|]. split; [done|]. split.
  - unfold rugs_mounted. by destruct (truthy _), (truthy _).
  - apply filter_late_mount_prefix.
Qed.

Lemma redraw_on_ungrouped_data_throws_witness :
  throws (redraw chart_mixed_data) = true ∧
  chart_of (redraw chart_mixed_data) = rugs_mounted chart_mixed_data ∧
  points (chart_of (redraw chart_mixed_data)) = points chart_mixed_data ∧
  delaunay (chart_of (redraw chart_mixed_data)) = delaunay chart_mixed_data ∧
  _activePoint (chart_of (redraw chart_mixed_data)) = _activePoint chart_mixed_data ∧
  List.filter is_late_mount (trace_of (redraw chart_mixed_data)) = [].
Proof.
  apply (redraw_on_ungrouped_data_throws chart_mixed_data (λ _, Some 3));
    reflexivity.
Defined.

Lemma rugs_mounted_twice c : rugs_mounted (rugs_mounted c) = rugs_mounted c.
Proof.
  destruct c as [? ? ? ? ? ? ? ? ? ? xp ? yp ?].
  destruct xp as [[|]|], yp as [[|]|]; reflexivity.
Qed.

Lemma rug_calls_rugs_mounted c : rug_calls (rugs_mounted c) = rug_calls c.
Proof.
  destruct c as [? ? ? ? ? ? ? ? ? ? xp ? yp ?].
  destruct xp as [[|]|], yp as [[|]|]; reflexivity.
Qed.

Lemma tooltip_reset_rugs_mounted c : tooltip_reset (rugs_mounted c) = tooltip_reset c.
Proof. unfold tooltip_reset, rugs_mounted. by destruct (truthy _), (truthy _). Qed.

(** The chart a redraw leaves when it ends normally, for the registry
    [ps] it mounted. *)
Lemma redraw_twice_ok c ps t :
  mountPoints (rugs_mounted c) = (with_points ps (rugs_mounted c), t, Ok ()) ->
  redraw (chart_of (redraw c)) = redraw c.
Proof.
  intros Hmp. rewrite (redraw_run c), Hmp. unfold chart_of. simpl.
  set (R := rugs_mounted c) in *.
  set (c1 := with_delaunay (Some (index_over (data R)))
               (with_delaunayPoint
                  (Some (generatePoint None None (Some 3) None None))
                  (with_points ps R))).
  assert (rugs_mounted c1 = c1) as Hr.
  { unfold c1, R.
    destruct c as [? ? ? ? ? ? ? ? ? ? xp ? yp ?].
    destruct xp as [[|]|], yp as [[|]|]; reflexivity. }
  assert (mountPoints c1 = (with_points ps c1, t, Ok ())) as Hmp1.
  { destruct (mountPoints_frame R c1) as [t' [(e & H1 & _)|(ps' & H1 & H2)]];
      try done.
    - rewrite Hmp in H1. done.
    - rewrite Hmp in H1. injection H1 as -> ->. exact H2. }
  rewrite redraw_run, Hr, Hmp1.
  assert (rug_calls c1 = rug_calls c) as ->.
  { rewrite <- (rug_calls_rugs_mounted c). done. }
  assert (tooltip_reset c1 = tooltip_reset c) as ->.
  { rewrite <- (tooltip_reset_rugs_mounted c). done. }
  reflexivity.
Qed.

(** X4.  [redraw] can be repeated: a redraw that follows a redraw makes
    the same calls, ends the same way (normally, or with the same
    exception) and leaves the chart object as the first one left it. *)
Theorem redraw_twice c : redraw (chart_of (redraw c)) = redraw c.
Proof.
  destruct (mountPoints_run (rugs_mounted c))
    as [pts [(e & He & _)|(ps & Hps & _)]].
  - rewrite (redraw_run c), He. unfold chart_of. simpl.
    rewrite redraw_run, rugs_mounted_twice, He.
    by rewrite rug_calls_rugs_mounted, tooltip_reset_rugs_mounted.
  - by eapply redraw_twice_ok.
Qed.

(** ** What the constructor's options decide for good *)

(** The options kept by the constructor are never written again. *)
Lemma options_kept_deliver e c :
  xRugParams (chart_of (deliver e c)) = xRugParams c ∧
  yRugParams (chart_of (deliver e c)) = yRugParams c ∧
  sizeAccessor (chart_of (deliver e c)) = sizeAccessor c ∧
  colors (chart_of (deliver e c)) = colors c.
Proof.
  by apply (keeps_deliver
    (λ x, xRugParams x = xRugParams c ∧ yRugParams x = yRugParams c ∧
          sizeAccessor x = sizeAccessor c ∧ colors x = colors c) (λ _, True));
    auto.
Qed.

Lemma options_kept_run es c :
  xRugParams (state_after es c) = xRugParams c ∧
  yRugParams (state_after es c) = yRugParams c ∧
  sizeAccessor (state_after es c) = sizeAccessor c ∧
  colors (state_after es c) = colors c.
Proof.
  revert c. induction es as [|e es IH]; intros c; [done|].
  rewrite state_after_cons.
  destruct (IH (chart_of (deliver e c))) as (-> & -> & -> & ->).
  apply options_kept_deliver.
Qed.

Lemma options_kept_redraw c :
  xRugParams (chart_of (redraw c)) = xRugParams c ∧
  yRugParams (chart_of (redraw c)) = yRugParams c ∧
  sizeAccessor (chart_of (redraw c)) = sizeAccessor c.
Proof.
  by apply (keeps_redraw
    (λ x, xRugParams x = xRugParams c ∧ yRugParams x = yRugParams c ∧
          sizeAccessor x = sizeAccessor c) (λ _, True)); auto.
Qed.

(** The chart on which the constructor calls [redraw()], with the
    options as the constructor keeps them. *)
Lemma constructor_options a :
  ∃ c1,
    chart_of (new_ScatterChart a) = chart_of (redraw c1) ∧
    xRugParams c1 = arg_xRug a ∧
    yRugParams c1 = arg_yRug a ∧
    sizeAccessor c1 =
      Some (if accessor_given (arg_sizeAccessor a)
            then from_option makeAccessorFunction (λ _, Some 3) (arg_sizeAccessor a)
            else λ _, Some 3) ∧
    points c1 = [].
Proof.
  unfold new_ScatterChart, constructor, AbstractChart_constructor.
  rewrite (run_bind_ok _ _ _ _ _ _ (normalizeData_run (allocate a))).
  rewrite run_bind_get, run_bind_modify, run_bind_get, run_bind_modify,
    run_bind_modify.
  eexists. split; [reflexivity|]. simpl.
  destruct (is_flat (arg_data a)); simpl;
    by destruct (arg_xRug a), (arg_yRug a).
Qed.

Lemma new_ScatterChart_options a :
  xRugParams (chart_of (new_ScatterChart a)) = arg_xRug a ∧
  yRugParams (chart_of (new_ScatterChart a)) = arg_yRug a ∧
  sizeAccessor (chart_of (new_ScatterChart a)) =
    Some (if accessor_given (arg_sizeAccessor a)
          then from_option makeAccessorFunction (λ _, Some 3) (arg_sizeAccessor a)
          else λ _, Some 3).
Proof.
  destruct (constructor_options a) as (c1 & -> & <- & <- & <- & _).
  apply options_kept_redraw.
Qed.

Lemma filter_rug_mount_rest c mounted late :
  List.filter is_rug_mount late = [] ->
  List.filter is_rug_mount
    (rug_calls c ++ tooltip_reset c ++ map PointMountTo mounted ++ late) =
  rug_calls c.
Proof.
  intros Hlate. rewrite !List.filter_app, Hlate.
  assert (List.filter is_rug_mount (rug_calls c) = rug_calls c) as ->.
  { unfold rug_calls. by destruct (truthy _), (truthy _). }
  assert (List.filter is_rug_mount (tooltip_reset c) = []) as ->.
  { unfold tooltip_reset. by destruct (tooltip c). }
  assert (List.filter is_rug_mount (map PointMountTo mounted) = []) as ->.
  { induction mounted as [|p l IH]; [done|]. exact IH. }
  by rewrite !app_nil_r.
Qed.

Lemma rugs_of_redraw c :
  List.filter is_rug_mount (trace_of (redraw c)) =
    rugs_for (xRugParams c) (yRugParams c) (data c).
Proof.
  destruct (redraw_calls c) as (mounted & ->).
  rewrite filter_rug_mount_rest; [done|]. by destruct (throws _).
Qed.

(** X10.  The rug options given to the constructor decide which rugs
    every later redraw mounts: in any state the chart reaches, a redraw
    (with or without new data) mounts one rug per axis whose option was
    true, the x rug before the y rug, over the data being drawn, and no
    rug for an axis whose option was false or not given.  The rugs are
    mounted first, so also by a redraw that then throws. *)
Theorem rugs_follow_constructor_options a es d :
  List.filter is_rug_mount
    (trace_of (deliver (Redraw d)
                 (state_after es (chart_of (new_ScatterChart a))))) =
  rugs_for (arg_xRug a) (arg_yRug a)
    (default (data (state_after es (chart_of (new_ScatterChart a)))) d).
Proof.
  set (c := state_after es (chart_of (new_ScatterChart a))).
  destruct (options_kept_run es (chart_of (new_ScatterChart a)))
    as (Hx & Hy & _ & _).
  destruct (new_ScatterChart_options a) as (Hx0 & Hy0 & _).
  fold c in Hx, Hy. rewrite Hx0 in Hx. rewrite Hy0 in Hy.
  destruct d as [d|]; simpl.
  - rewrite run_bind_modify, rugs_of_redraw. simpl. by rewrite Hx, Hy.
  - rewrite run_bind_ret, rugs_of_redraw. by rewrite Hx, Hy.
Qed.

(** ** The default size accessor *)

Lemma radius_registry_from cols n sets p :
  In p (concat (registry_from cols (λ _, Some 3) n sets)) -> radius p = Some 3.
Proof.
  revert n. induction sets as [|[fs|ds] sets IH]; intros n; simpl; [done|..].
  - apply IH.
  - intros [Hin|Hin]%in_app_or; [|by eapply IH].
    apply in_map_iff in Hin as (d & <- & _). done.
Qed.

Lemma radius_redraw c :
  sizeAccessor c = Some (λ _, Some 3) ->
  (∀ p, In p (concat (points c)) -> radius p = Some 3) ->
  ∀ p, In p (concat (points (chart_of (redraw c)))) -> radius p = Some 3.
Proof.
  intros Hf Hc p.
  destruct (rugs_mounted_fields c) as (Hd & Hcol & _ & Hsz & Hps & _).
  pose proof (mountPoints_grouped (rugs_mounted c) (λ _, Some 3)) as H.
  rewrite Hsz in H. specialize (H Hf). rewrite redraw_run.
  destruct (is_grouped (data (rugs_mounted c))).
  - destruct H as (sets & _ & ->). unfold chart_of. simpl.
    apply radius_registry_from.
  - destruct H as (mounted & e & ->). unfold chart_of. simpl.
    rewrite Hps. apply Hc.
Qed.

Lemma radius_invoke cb arg c :
  (∀ p, In p (concat (points c)) -> radius p = Some 3) ->
  ∀ p, In p (concat (points (chart_of (invoke cb arg c)))) -> radius p = Some 3.
Proof.
  intros Hc p Hin.
  pose proof (fmap_points_invoke radius cb arg c (λ _ _, eq_refl)) as Hm.
  apply (in_map radius) in Hin. rewrite concat_map, Hm, <- concat_map in Hin.
  apply in_map_iff in Hin as (p0 & <- & Hin0). by apply Hc.
Qed.

Lemma radius_deliver e c :
  sizeAccessor c = Some (λ _, Some 3) ->
  (∀ p, In p (concat (points c)) -> radius p = Some 3) ->
  ∀ p, In p (concat (points (chart_of (deliver e c)))) -> radius p = Some 3.
Proof.
  intros Hf Hc. destruct e as [[d|]|arg|]; simpl.
  - rewrite run_bind_modify. by apply radius_redraw.
  - rewrite run_bind_ret. by apply radius_redraw.
  - rewrite run_bind_get. destruct (delaunay c); simpl; [|done].
    by apply radius_invoke.
  - rewrite run_bind_get. destruct (delaunay c); simpl; [|done].
    by apply radius_invoke.
Qed.

Lemma radius_run es c :
  sizeAccessor c = Some (λ _, Some 3) ->
  (∀ p, In p (concat (points c)) -> radius p = Some 3) ->
  ∀ p, In p (concat (points (state_after es c))) -> radius p = Some 3.
Proof.
  revert c. induction es as [|e es IH]; intros c Hf Hc; [done|].
  rewrite state_after_cons. apply IH.
  - destruct (options_kept_deliver e c) as (_ & _ & -> & _). done.
  - by apply radius_deliver.
Qed.

(** X11.  A chart constructed without a size accessor (or with the empty
    string, which is falsy) draws every point with radius 3: every handle
    of the registry has radius 3 in every state the chart reaches. *)
Theorem default_radius a es b p :
  accessor_given (arg_sizeAccessor a) = false ->
  point_at (points (state_after es (chart_of (new_ScatterChart a)))) b = Some p ->
  radius p = Some 3.
Proof.
  intros Hacc Hp. apply point_at_In in Hp. revert p Hp.
  destruct (new_ScatterChart_options a) as (_ & _ & Hsz). rewrite Hacc in Hsz.
  apply radius_run; [done|].
  (* the registry the constructor mounts *)
  destruct (constructor_options a) as (c1 & -> & _ & _ & Hsz1 & Hps1).
  rewrite Hacc in Hsz1. apply radius_redraw; [done|]. by rewrite Hps1.
Qed.

Lemma default_radius_witness :
  radius (generatePoint (Some (rec_xy 3 3)) (Some "blue") (Some 3)
            (Some emphasized) (Some 1)) = Some 3.
Proof.
  apply (default_radius (sample_args None)
           [PointerOn [hit_at (Some 0) 1 10 10];
            Redraw (Some (JArr [JArr [rec_xy 1 1; rec_xy 2 2]; JArr [rec_xy 3 3]]));
            PointerOn [hit_at (Some 1) 0 3 3]]
           {| i := 1; j := 0 |}); reflexivity.
Defined.

(** ** A flat sequence of records *)

(** X12.  Normalizing, then drawing.  On a chart that was given a flat
    sequence of records ([isArrayOfObjects]), [normalizeData] followed by
    [redraw] does not throw and mounts a registry of one series with one
    handle per record, in the order of the records, colored with
    [colors[0]]. *)
Theorem flat_data_mounts_one_series c rs f :
  isArrayOfObjects c = true ->
  data c = JArr rs ->
  sizeAccessor c = Some f ->
  throws (redraw (chart_of (normalizeData c))) = false ∧
  points (chart_of (redraw (chart_of (normalizeData c)))) =
    [map (fresh_point (colors c) f 0) rs].
Proof.
  intros Hflat Hd Hf.
  assert (chart_of (normalizeData c) = with_data (JArr [data c]) c) as ->
    by (by rewrite normalizeData_run, Hflat).
  destruct (redraw_grouped (with_data (JArr [data c]) c) f)
    as (sets & Hsets & Ht & Hps & _).
  - simpl. by rewrite Hd.
  - done.
  - split; [done|]. rewrite Hps. simpl in Hsets. injection Hsets as <-.
    simpl. by rewrite Hd.
Qed.

Lemma flat_data_mounts_one_series_witness :
  throws (redraw (chart_of (normalizeData chart_flat_unnormalized))) = false ∧
  points (chart_of (redraw (chart_of (normalizeData chart_flat_unnormalized)))) =
    [map (fresh_point ["red"] (λ _, Some 3) 0) [rec_xy 1 2; rec_xy 3 4]].
Proof.
  apply (flat_data_mounts_one_series chart_flat_unnormalized
           [rec_xy 1 2; rec_xy 3 4] (λ _, Some 3)); reflexivity.
Defined.

(** ** The tooltip follows the highlight *)

Lemma filter_tooltip_deset_trace c :
  List.filter is_tooltip_call (deset_trace c) = [].
Proof. unfold deset_trace. by destruct (is_set _). Qed.

Lemma set_activePoint_no_tooltip_call c a :
  List.filter is_tooltip_call (trace_of (set_activePoint a c)) = [].
Proof.
  destruct (set_activePoint_cases c a)
    as [(_ & e & ->)|[(_ & _ & ->)|[(_ & _ & _ & e & ->)|(_ & q & _ & ->)]]];
    unfold trace_of; simpl; [done|..];
    by rewrite List.filter_app, filter_tooltip_deset_trace.
Qed.

Lemma tooltip_set_activePoint c a :
  tooltip (chart_of (set_activePoint a c)) = tooltip c.
Proof.
  by apply (keeps_set_activePoint (λ x, tooltip x = tooltip c) (λ _, True)).
Qed.

(** X13.  The tooltip is called after the setter, and only when the
    setter ended normally.  With a tooltip present, an [onPoint] event
    updates it exactly once, with the first element of its argument, when
    the event ends normally and not at all when it throws; an [onLeave]
    event hides it exactly once when it ends normally and not at all when
    it throws. *)
Theorem tooltip_called_only_on_success c t h rest :
  tooltip c = Some t ->
  List.filter is_tooltip_call (trace_of (onPointHandler (h :: rest) c)) =
    (if throws (onPointHandler (h :: rest) c) then []
     else [TooltipUpdate (DataArg [h])]) ∧
  List.filter is_tooltip_call (trace_of (onLeaveHandler c)) =
    (if throws (onLeaveHandler c) then [] else [TooltipHide]).
Proof.
  intros Ht. split.
  - unfold onPointHandler. fold (target h). rewrite run_bind.
    pose proof (set_activePoint_no_tooltip_call c (target h)) as Hno.
    pose proof (tooltip_set_activePoint c (target h)) as Htt.
    destruct (set_activePoint (target h) c) as [[c1 t1] [[]|e]];
      unfold throws, chart_of, trace_of, outcome_of in *; simpl in *; [|done].
    rewrite if_tooltip_emit, Htt, Ht. simpl. by rewrite List.filter_app, Hno.
  - unfold onLeaveHandler. rewrite run_bind.
    pose proof (set_activePoint_no_tooltip_call c {| i := -1; j := -1 |}) as Hno.
    pose proof (tooltip_set_activePoint c {| i := -1; j := -1 |}) as Htt.
    destruct (set_activePoint {| i := -1; j := -1 |} c) as [[c1 t1] [[]|e]];
      unfold throws, chart_of, trace_of, outcome_of in *; simpl in *; [|done].
    rewrite if_tooltip_emit, Htt, Ht. simpl. by rewrite List.filter_app, Hno.
Qed.

Lemma tooltip_called_only_on_success_witness :
  let c := chart_desynchronized in
  let h := hit_at (Some 0) 0 0 0 in
  List.filter is_tooltip_call (trace_of (onPointHandler [h] c)) =
    (if throws (onPointHandler [h] c) then []
     else [TooltipUpdate (DataArg [h])]) ∧
  List.filter is_tooltip_call (trace_of (onLeaveHandler c)) =
    (if throws (onLeaveHandler c) then [] else [TooltipHide]).
Proof.
  intros c h.
  apply (tooltip_called_only_on_success c TooltipHandle h []). reflexivity.
Defined.

(** ** A redraw does not restore the highlight *)

Lemma mountPoints_fresh c ps t :
  mountPoints c = (with_points ps c, t, Ok ()) -> count_emphasized ps = 0%nat.
Proof.
  unfold mountPoints. rewrite run_bind_get.
  destruct (data c) as [fs|sets]; [done|]. rewrite run_bind.
  destruct (fresh_mount_pointSets (λ _, True) (λ _, True)) with (n := 0%nat)
    (sets := sets) (c := c) as (_ & _ & H); auto.
  destruct (mount_pointSets_run 0 sets c) as (pts & r & Hrun & _).
  rewrite Hrun in *. destruct r as [rows|e]; [|done].
  unfold modify. simpl. intros Heq.
  assert (rows = ps) as <-.
  { apply (f_equal (λ x, points (chart_of x))) in Heq. exact Heq. }
  by apply H.
Qed.

(** X14.  A redraw mounts every handle dim and keeps the active point.
    After a redraw that ends normally no handle of the registry is
    emphasized, whatever was highlighted before, while [_activePoint] is
    what it was: the point that was highlighted is still the active point
    but is no longer emphasized. *)
Theorem redraw_drops_emphasis c :
  throws (redraw c) = false ->
  count_emphasized (points (chart_of (redraw c))) = 0%nat ∧
  _activePoint (chart_of (redraw c)) = _activePoint c.
Proof.
  intros Ht. split; [|apply redraw_keeps_activePoint].
  rewrite redraw_run in *.
  destruct (mountPoints_run (rugs_mounted c))
    as [pts [(e & He & _)|(ps & Hps & _)]].
  - rewrite He in Ht. done.
  - rewrite Hps. unfold chart_of. simpl. by eapply mountPoints_fresh.
Qed.

Lemma redraw_drops_emphasis_witness :
  let c := chart_on_00 None in
  count_emphasized (points c) = 1%nat ∧
  count_emphasized (points (chart_of (redraw c))) = 0%nat ∧
  _activePoint (chart_of (redraw c)) = {| i := 0; j := 0 |}.
Proof.
  intros c. split; [reflexivity|].
  apply (redraw_drops_emphasis c). reflexivity.
Defined.
